(** * Smart bookmark manager: server handlers and client synchronisation

    A shallow embedding of
    - [supabase/functions/server/index.tsx]: the three bookmark routes of the
      edge function (GET, POST, DELETE) over the key-value adapter, and
    - [src/app/App.tsx]: the reducer that the realtime subscription applies
      to the local bookmark list,
    followed by the properties the specification states about them. *)

From Stdlib Require Import Ascii ZArith.
From stdpp Require Import base option list strings gmap fin_maps.

#[local] Set Warnings "-register-all".
Local Open Scope Z_scope.

(** ** JSON values

    A request body is whatever [JSON.parse] yields.  Numbers are carried as
    integers: the handlers only ever test a number for being zero.  Number
    literals beyond the range of a double, which parse to an infinity, are
    not represented. *)

Inductive json : Type :=
| JNull
| JBool (b : bool)
| JNum (n : Z)
| JStr (s : string)
| JArr (items : list json)
| JObj (fields : list (string * json)).

(** Own-property lookup in a parsed object, which binds each name once. *)
Fixpoint assoc (k : string) (fields : list (string * json)) : option json :=
  match fields with
  | [] => None
  | (k', v) :: rest => if String.eqb k k' then Some v else assoc k rest
  end.

(** [v.url] and [v.title] on a non-null value: [None] is [undefined].
    Only objects can carry these two names. *)
Definition prop (k : string) (v : json) : option json :=
  match v with
  | JObj fields => assoc k fields
  | _ => None
  end.

(** JavaScript truthiness, as tested by [!x]. *)
Definition truthy (v : option json) : bool :=
  match v with
  | None => false
  | Some JNull => false
  | Some (JBool b) => b
  | Some (JNum n) => negb (n =? 0)
  | Some (JStr s) => negb (String.eqb s EmptyString)
  | Some (JArr _) => true
  | Some (JObj _) => true
  end.

(** [s.split(sep)] for a one-character separator. *)
Fixpoint split (sep : ascii) (s : string) : list string :=
  match s with
  | EmptyString => [EmptyString]
  | String a rest =>
      if Ascii.eqb a sep then EmptyString :: split sep rest
      else match split sep rest with
           | [] => [String a EmptyString]
           | w :: ws => String a w :: ws
           end
  end.

(** ** Data model *)

(** The object built by the POST handler.  [url] and [title] are stored as
    they came out of the body. *)
Record Bookmark : Type := mkBookmark {
  id : string;
  url : json;
  title : json;
  userId : string;
  createdAt : string
}.

(** [`bookmarks:${userId}:`] and [`bookmarks:${userId}:${bookmarkId}`]. *)
Definition user_prefix (uid : string) : string :=
  "bookmarks:" +:+ uid +:+ ":".

Definition bookmark_key (uid bid : string) : string :=
  "bookmarks:" +:+ uid +:+ ":" +:+ bid.

(** ** The world of a handler: the key-value table and the calls made on it *)

Inductive Access : Type :=
| Scan (prefix : string)
| Put (key : string) (value : Bookmark)
| Remove (key : string).

Record World : Type := mkWorld {
  kv : gmap string Bookmark;
  accesses : list Access
}.

Definition empty_world : World := {| kv := ∅; accesses := [] |}.

(** What a request sees of its surroundings.  [getUser] resolves to the pair
    [{ data: { user }, error }] that the handlers destructure. *)
Record User : Type := mkUser { user_id : string }.

Record UserResponse : Type := mkUserResponse {
  data_user : option User;        (* data.user *)
  auth_error : option string      (* error *)
}.

Record Env : Type := mkEnv {
  getUser : string → UserResponse;   (* supabase.auth.getUser(token) *)
  randomUUID : string;               (* crypto.randomUUID() *)
  toISOString : string;              (* new Date().toISOString() *)
  kv_failure : option string         (* the storage backend's error, if it fails *)
}.

(** ** Computations that may throw *)

Inductive Outcome (A : Type) : Type :=
| Returned (a : A)
| Thrown (err : string).
Arguments Returned {A} a.
Arguments Thrown {A} err.

Definition Eff (A : Type) : Type := World → Outcome A * World.

Global Instance eff_ret : MRet Eff := λ A a w, (Returned a, w).

Global Instance eff_bind : MBind Eff := λ A B f m w,
  match m w with
  | (Returned a, w') => f a w'
  | (Thrown err, w') => (Thrown err, w')
  end.

Definition throw {A : Type} (err : string) : Eff A := λ w, (Thrown err, w).

Definition try_catch {A : Type} (body : Eff A) (handler : string → Eff A) : Eff A :=
  λ w, match body w with
       | (Returned a, w') => (Returned a, w')
       | (Thrown err, w') => handler err w'
       end.

Definition record (a : Access) (w : World) : World :=
  {| kv := kv w; accesses := accesses w ++ [a] |}.

(** ** Key-value adapter *)

(** Modelled from the spec: the prefix scan of section 4.1, the pairs of a
    table whose key starts with [prefix]. *)
Definition scan (prefix : string) (m : gmap string Bookmark)
  : list (string * Bookmark) :=
  map_to_list (filter (λ p : string * Bookmark, String.prefix prefix p.1) m).

(** Modelled from the spec: [kv_store.tsx] is not among the sources.  Section
    4.1 gives the contract of [set], [del] and [getByPrefix]; section 7 says
    a read or write of the table can fail, which the adapter reports by
    throwing.  What a failing call has done to the table the spec does not
    say; the model takes it to have done nothing, and the properties that
    depend on the contents of the table are stated for calls that succeed. *)
Definition kv_set (e : Env) (key : string) (value : Bookmark) : Eff unit :=
  λ w, match kv_failure e with
       | Some err => (Thrown err, record (Put key value) w)
       | None =>
           (Returned (),
            {| kv := <[key := value]> (kv w);
               accesses := accesses w ++ [Put key value] |})
       end.

(** Modelled from the spec: removes the key, no error if it is absent. *)
Definition kv_del (e : Env) (key : string) : Eff unit :=
  λ w, match kv_failure e with
       | Some err => (Thrown err, record (Remove key) w)
       | None =>
           (Returned (),
            {| kv := delete key (kv w);
               accesses := accesses w ++ [Remove key] |})
       end.

(** Modelled from the spec: all key/value pairs whose key starts with the
    prefix, in the order the table enumerates them. *)
Definition kv_getByPrefix (e : Env) (prefix : string)
  : Eff (list (string * Bookmark)) :=
  λ w, match kv_failure e with
       | Some err => (Thrown err, record (Scan prefix) w)
       | None =>
           (Returned (scan prefix (kv w)), record (Scan prefix) w)
       end.

(** ** The edge function *)

Record Context : Type := mkContext {
  authorization : option string;   (* c.req.header('Authorization') *)
  req_json : option json;          (* c.req.json(); [None]: the body does not parse *)
  param_id : string                (* c.req.param('id') *)
}.

Inductive Payload : Type :=
| Bookmarks (bookmarks : list Bookmark)          (* { bookmarks } *)
| Created (bookmark : Bookmark)                  (* { bookmark } *)
| Success (success : bool)                       (* { success } *)
| Failure (error : string) (details : option string).

Record Response : Type := mkResponse {
  status : Z;
  payload : Payload
}.

Definition c_json (p : Payload) (st : Z) : Response :=
  {| status := st; payload := p |}.

(** [c.req.header('Authorization')?.split(' ')[1]] *)
Definition accessToken (c : Context) : option string :=
  h ← authorization c; split " " h !! 1%nat.

(** [authError || !user?.id] *)
Definition rejected (r : UserResponse) : bool :=
  match auth_error r, data_user r with
  | Some _, _ => true
  | None, None => true
  | None, Some user => String.eqb (user_id user) EmptyString
  end.

(** [user.id], read after the check above has passed. *)
Definition uid_of (r : UserResponse) : string :=
  match data_user r with
  | Some user => user_id user
  | None => EmptyString
  end.

(** [await c.req.json()] rejects with a SyntaxError on a body that is not JSON. *)
Definition parse_body (c : Context) : Eff json :=
  match req_json c with
  | Some v => mret v
  | None => throw "SyntaxError: Unexpected end of JSON input"
  end.

(** [const { url, title } = body] throws on [null]. *)
Definition destructure (body : json) : Eff (option json * option json) :=
  match body with
  | JNull => throw "TypeError: Cannot destructure property 'url' of 'body' as it is null."
  | _ => mret (prop "url" body, prop "title" body)
  end.

(** [app.get("/make-server-04c71c6f/bookmarks", ...)] *)
Definition get_bookmarks (e : Env) (c : Context) : Eff Response :=
  try_catch
    (match accessToken c with
     | None | Some EmptyString =>
         mret (c_json (Failure "No access token provided" None) 401)
     | Some token =>
         let r := getUser e token in
         if rejected r then mret (c_json (Failure "Unauthorized" None) 401)
         else
           bookmarks ← kv_getByPrefix e (user_prefix (uid_of r));
           mret (c_json (Bookmarks ((λ b, b.2) <$> bookmarks)) 200)
     end)
    (λ error,
       mret (c_json (Failure "Failed to fetch bookmarks" (Some error)) 500)).

(** [app.post("/make-server-04c71c6f/bookmarks", ...)] *)
Definition post_bookmarks (e : Env) (c : Context) : Eff Response :=
  try_catch
    (match accessToken c with
     | None | Some EmptyString =>
         mret (c_json (Failure "No access token provided" None) 401)
     | Some token =>
         let r := getUser e token in
         if rejected r then mret (c_json (Failure "Unauthorized" None) 401)
         else
           body ← parse_body c;
           fields ← destructure body;
           match fields with
           | (Some url, Some title) =>
               if negb (truthy (Some url)) || negb (truthy (Some title))
               then mret (c_json (Failure "URL and title are required" None) 400)
               else
                 let bookmarkId := randomUUID e in
                 let bookmark :=
                   {| id := bookmarkId;
                      url := url;
                      title := title;
                      userId := uid_of r;
                      createdAt := toISOString e |} in
                 _ ← kv_set e (bookmark_key (uid_of r) bookmarkId) bookmark;
                 mret (c_json (Created bookmark) 200)
           | _ =>
               (* an undefined field is falsy *)
               mret (c_json (Failure "URL and title are required" None) 400)
           end
     end)
    (λ error,
       mret (c_json (Failure "Failed to add bookmark" (Some error)) 500)).

(** [app.delete("/make-server-04c71c6f/bookmarks/:id", ...)] *)
Definition delete_bookmark (e : Env) (c : Context) : Eff Response :=
  try_catch
    (match accessToken c with
     | None | Some EmptyString =>
         mret (c_json (Failure "No access token provided" None) 401)
     | Some token =>
         let r := getUser e token in
         if rejected r then mret (c_json (Failure "Unauthorized" None) 401)
         else
           let bookmarkId := param_id c in
           _ ← kv_del e (bookmark_key (uid_of r) bookmarkId);
           mret (c_json (Success true) 200)
     end)
    (λ error,
       mret (c_json (Failure "Failed to delete bookmark" (Some error)) 500)).

(** The three bookmark routes. *)
Inductive Route : Type := GET_bookmarks | POST_bookmarks | DELETE_bookmark.

Record Request : Type := mkRequest {
  route : Route;
  ctx : Context
}.

Definition handler (r : Route) : Env → Context → Eff Response :=
  match r with
  | GET_bookmarks => get_bookmarks
  | POST_bookmarks => post_bookmarks
  | DELETE_bookmark => delete_bookmark
  end.

(** One request served: the response sent and the world left behind.  An
    error that escaped a handler would be answered by the framework. *)
Definition serve (e : Env) (q : Request) (w : World) : Response * World :=
  match handler (route q) e (ctx q) w with
  | (Returned resp, w') => (resp, w')
  | (Thrown err, w') => (c_json (Failure "Internal Server Error" None) 500, w')
  end.

(** A run: requests served one after the other, each in its own
    surroundings, with the responses kept. *)
Record Exchange : Type := mkExchange {
  ex_env : Env;
  ex_request : Request;
  ex_response : Response
}.

Fixpoint run (steps : list (Env * Request)) (w : World) : list Exchange * World :=
  match steps with
  | [] => ([], w)
  | (e, q) :: rest =>
      let '(resp, w') := serve e q w in
      let '(h, w'') := run rest w' in
      ({| ex_env := e; ex_request := q; ex_response := resp |} :: h, w'')
  end.

(** ** The client's realtime subscription *)

(** The broadcast payload as it arrives: [type] is whatever string the
    sender put there, and either optional field may be absent. *)
Module BookmarkEvent.
Record t : Type := mk {
  type : string;
  bookmark : option Bookmark;
  bookmarkId : option string;
  userId : string
}.
End BookmarkEvent.

(** [prev.some(b => b.id === bookmark.id)] *)
Definition some_id (bid : string) (prev : list Bookmark) : bool :=
  existsb (λ b, String.eqb (id b) bid) prev.

(** The callback registered by [setupRealtimeSubscription] for
    ['bookmark-change'], as a function from the list before the event to the
    list after it.  [user_id] is the signed-in user's id. *)
Definition on_bookmark_change (user_id : string) (event : BookmarkEvent.t)
    (prev : list Bookmark) : list Bookmark :=
  if negb (String.eqb (BookmarkEvent.userId event) user_id) then prev
  else
    match String.eqb (BookmarkEvent.type event) "added",
          BookmarkEvent.bookmark event with
    | true, Some bookmark =>
        if some_id (id bookmark) prev then prev else bookmark :: prev
    | _, _ =>
        match String.eqb (BookmarkEvent.type event) "deleted",
              BookmarkEvent.bookmarkId event with
        | true, Some bookmarkId =>
            if String.eqb bookmarkId EmptyString then prev   (* an empty id is falsy *)
            else List.filter (λ b, negb (String.eqb (id b) bookmarkId)) prev
        | _, _ => prev
        end
    end.

(** ** Vocabulary of the specification *)

(** The caller of a request: the identifier the identity provider vouches
    for when the bearer credential is present and verifies. *)
Definition caller (e : Env) (c : Context) : option string :=
  match accessToken c with
  | None | Some EmptyString => None
  | Some token =>
      if rejected (getUser e token) then None
      else Some (uid_of (getUser e token))
  end.

Definition credential_missing (c : Context) : Prop :=
  accessToken c = None ∨ accessToken c = Some EmptyString.

Definition verification_fails (e : Env) (c : Context) : Prop :=
  ∃ token, accessToken c = Some token ∧ rejected (getUser e token) = true.

(** The object a create request builds for caller [u] out of the two
    values found in the body. *)
Definition fresh_bookmark (e : Env) (u : string) (vu vt : json) : Bookmark :=
  {| id := randomUUID e; url := vu; title := vt; userId := u;
     createdAt := toISOString e |}.

(** An identifier without the separator of the key layout. *)
Fixpoint colon_free (s : string) : bool :=
  match s with
  | EmptyString => true
  | String a rest => negb (Ascii.eqb a ":") && colon_free rest
  end.

(** The identifiers drawn by the create requests of a run. *)
Fixpoint generated (steps : list (Env * Request)) : list string :=
  match steps with
  | [] => []
  | (e, q) :: rest =>
      match route q with
      | POST_bookmarks => randomUUID e :: generated rest
      | _ => generated rest
      end
  end.

(** What one exchange tells about [u]'s bookmarks: a create answered with a
    bookmark adds it, a delete answered with success removes that id. *)
Definition observe (u : string) (x : Exchange) (acc : list Bookmark)
  : list Bookmark :=
  if bool_decide (caller (ex_env x) (ctx (ex_request x)) = Some u) then
    match route (ex_request x), payload (ex_response x) with
    | POST_bookmarks, Created b => acc ++ [b]
    | DELETE_bookmark, Success true =>
        filter (λ b, id b ≠ param_id (ctx (ex_request x))) acc
    | _, _ => acc
    end
  else acc.

(** The bookmarks [u] has created and not deleted, over a history that
    starts from [acc]. *)
Fixpoint live_from (u : string) (acc : list Bookmark) (h : list Exchange)
  : list Bookmark :=
  match h with
  | [] => acc
  | x :: rest => live_from u (observe u x acc) rest
  end.

Definition live (u : string) (h : list Exchange) : list Bookmark :=
  live_from u [] h.

(** Every record sits under the key that its own fields spell. *)
Definition keys_agree (m : gmap string Bookmark) : Prop :=
  ∀ k b, m !! k = Some b → k = bookmark_key (userId b) (id b).

(** Every stored record belongs to a user whose identifier has [n]
    characters. *)
Definition owners_of_length (n : nat) (m : gmap string Bookmark) : Prop :=
  ∀ k b, m !! k = Some b → String.length (userId b) = n.

(** The table holds, under [u]'s keys, the bookmarks of [l] and no others. *)
Definition consistent (u : string) (m : gmap string Bookmark)
    (l : list Bookmark) : Prop :=
  NoDup l ∧ ∀ b, b ∈ l ↔ m !! bookmark_key u (id b) = Some b.

(** No stored bookmark carries one of the given identifiers. *)
Definition unused (ids : list string) (m : gmap string Bookmark) : Prop :=
  ∀ k b, m !! k = Some b → id b ∉ ids.

(** The worlds the edge function can bring about, starting with an empty
    table. *)
Inductive reachable : World → Prop :=
| reachable_empty : reachable empty_world
| reachable_serve e q w : reachable w → reachable (serve e q w).2.

(** Requests as the client sends them. *)
Definition bearer (token : string) : option string := Some ("Bearer " +:+ token).

Definition list_request (token : string) : Request :=
  {| route := GET_bookmarks;
     ctx := {| authorization := bearer token; req_json := None; param_id := EmptyString |} |}.

Definition create_request (token : string) (body : json) : Request :=
  {| route := POST_bookmarks;
     ctx := {| authorization := bearer token; req_json := Some body; param_id := EmptyString |} |}.

Definition delete_request (token : string) (bid : string) : Request :=
  {| route := DELETE_bookmark;
     ctx := {| authorization := bearer token; req_json := None; param_id := bid |} |}.

(** ** Sample surroundings, used to run the model on concrete requests *)

(** An identity provider that knows the given (token, user id) pairs. *)
Definition provider (accounts : list (string * string)) (token : string)
  : UserResponse :=
  match List.find (λ p : string * string, String.eqb p.1 token) accounts with
  | Some (_, uid) =>
      {| data_user := Some {| user_id := uid |}; auth_error := None |}
  | None =>
      {| data_user := None; auth_error := Some "invalid JWT" |}
  end.

Definition surroundings (accounts : list (string * string))
    (uuid now : string) (failure : option string) : Env :=
  {| getUser := provider accounts;
     randomUUID := uuid;
     toISOString := now;
     kv_failure := failure |}.

Definition x_com : json :=
  JObj [("url", JStr "https://x.com"); ("title", JStr "X")].

(** Two accounts with identifiers as the identity provider issues them. *)
Definition alice : string := "5f0c1a52-8a77-4c0e-9d57-0e3b7a0c1a11".
Definition bob : string := "c2d8e1f4-1b3a-4f6e-8a90-7d5e4c3b2a22".

Definition accounts : list (string * string) :=
  [("alice-token", alice); ("bob-token", bob)].

Definition at_time (uuid : string) : Env :=
  surroundings accounts uuid "2024-05-01T10:00:00.000Z" None.

Definition storage_down : Env :=
  surroundings accounts "0d9f2c1e-5b6a-4c7d-8e9f-a1b2c3d4e5f6"
    "2024-05-01T10:00:00.000Z" (Some "Error: connection refused").

(** Alice saves two bookmarks and drops the first, Bob saves one and tries
    to drop Alice's second, and a stranger knocks in between. *)
Definition busy_day : list (Env * Request) :=
  [ (at_time "9a3e6b70-2f4d-4c1b-b8a5-6d7e8f901234",
     create_request "alice-token" x_com);
    (at_time "1c2d3e4f-5a6b-4c7d-8e9f-0a1b2c3d4e5f",
     create_request "bob-token" x_com);
    (at_time "aaaaaaaa-0000-4000-8000-000000000001",
     create_request "nobody" x_com);
    (at_time "3b9d1f6e-7c2a-4e5b-9f80-1a2b3c4d5e6f",
     create_request "alice-token"
       (JObj [("url", JStr "https://rocq-prover.org"); ("title", JStr "Rocq")]));
    (at_time "aaaaaaaa-0000-4000-8000-000000000002",
     delete_request "alice-token" "9a3e6b70-2f4d-4c1b-b8a5-6d7e8f901234");
    (at_time "aaaaaaaa-0000-4000-8000-000000000003",
     delete_request "bob-token" "3b9d1f6e-7c2a-4e5b-9f80-1a2b3c4d5e6f") ].


(** ** The rest of the client: dialog and fetch handlers of [App.tsx] *)

(** The key or prefix an adapter call is made on. *)
Definition touched (a : Access) : string :=
  match a with
  | Scan prefix => prefix
  | Put key _ => key
  | Remove key => key
  end.

(** A string without a space. *)
Fixpoint space_free (s : string) : bool :=
  match s with
  | EmptyString => true
  | String a rest => negb (Ascii.eqb a " ") && space_free rest
  end.

(** [JSON.stringify({ url, title })], as the edge function parses it back. *)
Definition add_body (url title : string) : json :=
  JObj [("url", JStr url); ("title", JStr title)].

Module Dialog.
(** [handleSubmit] of [AddBookmarkDialog]: the call [onAdd(url, title)] it
    makes, if it makes one. *)
Definition handleSubmit (url title : string) : option (string * string) :=
  if String.eqb url EmptyString || String.eqb title EmptyString then None
  else Some (url, title).
End Dialog.

Module App.

Inductive Toast : Type :=
| toast_error (msg : string)
| toast_success (msg : string).

(** What [await fetch(...)] comes to: it throws, or a response arrives. *)
Inductive Fetched : Type :=
| Failed (error : string)
| Answered (response : Response).

(** [response.ok] *)
Definition ok (response : Response) : bool :=
  (200 <=? status response) && (status response <=? 299).

(** What a handler does besides awaiting: the list it passes to
    [setBookmarks], the event it sends on the channel, the toast it shows.
    The list of [handleAddBookmark] may start with [undefined]. *)
Record Effects (S : Type) : Type := mkEffects {
  setBookmarks : option S;
  sent : option BookmarkEvent.t;
  toast : option Toast
}.
Arguments mkEffects {S} _ _ _.
Arguments setBookmarks {S} _.
Arguments sent {S} _.
Arguments toast {S} _.

(** [!accessToken] *)
Definition no_token (accessToken : option string) : bool :=
  match accessToken with
  | None | Some EmptyString => true
  | Some _ => false
  end.

(** [broadcastBookmarkChange]: nothing is sent without a channel or a user;
    [channel.send] resolves whatever the delivery. *)
Definition broadcastBookmarkChange (channel : bool) (user : option User)
    (event : BookmarkEvent.t) : option BookmarkEvent.t :=
  match channel, user with
  | true, Some _ => Some event
  | _, _ => None
  end.

(** [fetchBookmarks], with [data.bookmarks || []]. *)
Definition fetchBookmarks (accessToken : option string)
    (fetch : Request → Fetched) : Effects (list Bookmark) :=
  match accessToken with
  | None | Some EmptyString => mkEffects None None None
  | Some token =>
      match fetch (list_request token) with
      | Failed _ =>
          mkEffects None None (Some (toast_error "Failed to load bookmarks"))
      | Answered response =>
          if negb (ok response) then
            mkEffects None None (Some (toast_error "Failed to load bookmarks"))
          else
            mkEffects
              (Some match payload response with
                    | Bookmarks bookmarks => bookmarks
                    | _ => []
                    end)
              None None
      end
  end.

(** [handleAddBookmark].  [bookmarks] is the list the closure holds.  When
    [user] is null, reading [user.id] for the event throws after the list
    has been set. *)
Definition handleAddBookmark (user : option User) (accessToken : option string)
    (channel : bool) (bookmarks : list Bookmark) (fetch : Request → Fetched)
    (url title : string) : Effects (list (option Bookmark)) :=
  match accessToken with
  | None | Some EmptyString => mkEffects None None None
  | Some token =>
      match fetch (create_request token (add_body url title)) with
      | Failed _ =>
          mkEffects None None (Some (toast_error "Failed to add bookmark"))
      | Answered response =>
          if negb (ok response) then
            mkEffects None None (Some (toast_error "Failed to add bookmark"))
          else
            let data_bookmark :=
              match payload response with
              | Created bookmark => Some bookmark
              | _ => None
              end in
            let next := data_bookmark :: (Some <$> bookmarks) in
            match user with
            | None =>
                mkEffects (Some next) None
                  (Some (toast_error "Failed to add bookmark"))
            | Some u =>
                mkEffects (Some next)
                  (broadcastBookmarkChange channel user
                     {| BookmarkEvent.type := "added";
                        BookmarkEvent.bookmark := data_bookmark;
                        BookmarkEvent.bookmarkId := None;
                        BookmarkEvent.userId := user_id u |})
                  (Some (toast_success "Bookmark added successfully"))
            end
      end
  end.

(** [handleDeleteBookmark].  The id travels as the last segment of the
    request path. *)
Definition handleDeleteBookmark (user : option User) (accessToken : option string)
    (channel : bool) (bookmarks : list Bookmark) (fetch : Request → Fetched)
    (bid : string) : Effects (list Bookmark) :=
  match accessToken with
  | None | Some EmptyString => mkEffects None None None
  | Some token =>
      match fetch (delete_request token bid) with
      | Failed _ =>
          mkEffects None None (Some (toast_error "Failed to delete bookmark"))
      | Answered response =>
          if negb (ok response) then
            mkEffects None None (Some (toast_error "Failed to delete bookmark"))
          else
            let next :=
              List.filter (λ b, negb (String.eqb (id b) bid)) bookmarks in
            match user with
            | None =>
                mkEffects (Some next) None
                  (Some (toast_error "Failed to delete bookmark"))
            | Some u =>
                mkEffects (Some next)
                  (broadcastBookmarkChange channel user
                     {| BookmarkEvent.type := "deleted";
                        BookmarkEvent.bookmark := None;
                        BookmarkEvent.bookmarkId := Some bid;
                        BookmarkEvent.userId := user_id u |})
                  (Some (toast_success "Bookmark deleted"))
            end
      end
  end.

End App.

(** The edge function as the far end of [fetch], in surroundings [e] and
    over world [w]. *)
Definition reaches (e : Env) (w : World) (q : Request) : App.Fetched :=
  App.Answered (serve e q w).1.

(** The shapes an answer of the edge function takes. *)
Inductive Answer (q : Request) : Response → Prop :=
| answer_401 msg :
    Answer q (c_json (Failure msg None) 401)
| answer_400 :
    route q = POST_bookmarks →
    Answer q (c_json (Failure "URL and title are required" None) 400)
| answer_500 msg err :
    Answer q (c_json (Failure msg (Some err)) 500)
| answer_bookmarks bs :
    route q = GET_bookmarks → Answer q (c_json (Bookmarks bs) 200)
| answer_created b :
    route q = POST_bookmarks → Answer q (c_json (Created b) 200)
| answer_success :
    route q = DELETE_bookmark → Answer q (c_json (Success true) 200).

(** One request served, case by case: who called, which route, what the
    body and the table did, and the answer and world that result. *)
Inductive Served (e : Env) (q : Request) (w : World) : Response → World → Prop :=
| served_unauthorized msg :
    caller e (ctx q) = None →
    Served e q w (c_json (Failure msg None) 401) w
| served_list_failed u err :
    caller e (ctx q) = Some u → route q = GET_bookmarks →
    kv_failure e = Some err →
    Served e q w
      (c_json (Failure "Failed to fetch bookmarks" (Some err)) 500)
      (record (Scan (user_prefix u)) w)
| served_list u :
    caller e (ctx q) = Some u → route q = GET_bookmarks →
    kv_failure e = None →
    Served e q w
      (c_json (Bookmarks ((scan (user_prefix u) (kv w)).*2)) 200)
      (record (Scan (user_prefix u)) w)
| served_unreadable u err :
    caller e (ctx q) = Some u → route q = POST_bookmarks →
    req_json (ctx q) = None ∨ req_json (ctx q) = Some JNull →
    Served e q w (c_json (Failure "Failed to add bookmark" (Some err)) 500) w
| served_invalid u body :
    caller e (ctx q) = Some u → route q = POST_bookmarks →
    req_json (ctx q) = Some body → body ≠ JNull →
    truthy (prop "url" body) = false ∨ truthy (prop "title" body) = false →
    Served e q w (c_json (Failure "URL and title are required" None) 400) w
| served_create_failed u body vu vt err :
    caller e (ctx q) = Some u → route q = POST_bookmarks →
    req_json (ctx q) = Some body →
    prop "url" body = Some vu → truthy (Some vu) = true →
    prop "title" body = Some vt → truthy (Some vt) = true →
    kv_failure e = Some err →
    Served e q w
      (c_json (Failure "Failed to add bookmark" (Some err)) 500)
      (record (Put (bookmark_key u (randomUUID e)) (fresh_bookmark e u vu vt)) w)
| served_created u body vu vt :
    caller e (ctx q) = Some u → route q = POST_bookmarks →
    req_json (ctx q) = Some body →
    prop "url" body = Some vu → truthy (Some vu) = true →
    prop "title" body = Some vt → truthy (Some vt) = true →
    kv_failure e = None →
    Served e q w
      (c_json (Created (fresh_bookmark e u vu vt)) 200)
      {| kv := <[bookmark_key u (randomUUID e) := fresh_bookmark e u vu vt]> (kv w);
         accesses := accesses w
           ++ [Put (bookmark_key u (randomUUID e)) (fresh_bookmark e u vu vt)] |}
| served_delete_failed u err :
    caller e (ctx q) = Some u → route q = DELETE_bookmark →
    kv_failure e = Some err →
    Served e q w
      (c_json (Failure "Failed to delete bookmark" (Some err)) 500)
      (record (Remove (bookmark_key u (param_id (ctx q)))) w)
| served_deleted u :
    caller e (ctx q) = Some u → route q = DELETE_bookmark →
    kv_failure e = None →
    Served e q w
      (c_json (Success true) 200)
      {| kv := delete (bookmark_key u (param_id (ctx q))) (kv w);
         accesses := accesses w ++ [Remove (bookmark_key u (param_id (ctx q)))] |}.

(** A signed-in session of Alice. *)
Definition alice_user : User := {| user_id := alice |}.

Definition x_com_bookmark : Bookmark :=
  fresh_bookmark (at_time "9a3e6b70-2f4d-4c1b-b8a5-6d7e8f901234")
    alice (JStr "https://x.com") (JStr "X").

Definition rocq_bookmark : Bookmark :=
  fresh_bookmark (at_time "3b9d1f6e-7c2a-4e5b-9f80-1a2b3c4d5e6f")
    alice (JStr "https://rocq-prover.org") (JStr "Rocq").

(** * Properties *)

(** ** Strings and keys *)

Example split_bearer : split " " "Bearer abc.def" = ["Bearer"; "abc.def"].
Proof. reflexivity. Qed.

Example split_two_spaces :
  split " " "Bearer  abc" = ["Bearer"; EmptyString; "abc"].
Proof. reflexivity. Qed.

Example token_of_bare_scheme :
  accessToken {| authorization := Some "Bearer"; req_json := None;
                 param_id := EmptyString |} = None.
Proof. reflexivity. Qed.

Example key_layout :
  bookmark_key alice "9a3e6b70-2f4d-4c1b-b8a5-6d7e8f901234"
  = "bookmarks:5f0c1a52-8a77-4c0e-9d57-0e3b7a0c1a11:9a3e6b70-2f4d-4c1b-b8a5-6d7e8f901234".
Proof. reflexivity. Qed.

Lemma append_cons a s t : String a s +:+ t = String a (s +:+ t).
Proof. reflexivity. Qed.

Lemma append_nil_l s : EmptyString +:+ s = s.
Proof. reflexivity. Qed.

Lemma append_assoc (s t r : string) : (s +:+ t) +:+ r = s +:+ t +:+ r.
Proof.
  induction s as [|a s IH]; [done|].
  by rewrite !append_cons, IH.
Qed.

Lemma prefix_cons a s b t :
  String.prefix (String a s) (String b t)
  = if ascii_dec a b then String.prefix s t else false.
Proof. reflexivity. Qed.

Lemma prefix_app_cancel (p s t : string) :
  String.prefix (p +:+ s) (p +:+ t) = String.prefix s t.
Proof.
  induction p as [|a p IH]; [done|].
  rewrite !append_cons, prefix_cons. by destruct (ascii_dec a a).
Qed.

Lemma prefix_nil s : String.prefix EmptyString s = true.
Proof. by destruct s. Qed.

Lemma prefix_app (p s : string) : String.prefix p (p +:+ s) = true.
Proof.
  induction p as [|a p IH]; [apply prefix_nil|].
  rewrite append_cons, prefix_cons. by destruct (ascii_dec a a).
Qed.

Lemma colon_free_cons a s :
  colon_free (String a s) = true ↔ a ≠ ":"%char ∧ colon_free s = true.
Proof.
  simpl. rewrite andb_true_iff, negb_true_iff.
  destruct (Ascii.eqb_spec a ":"); intuition congruence.
Qed.

(** Up to the first colon, a colon-free identifier is determined. *)
Lemma colon_prefix_inj (v u rest : string) :
  colon_free v = true → colon_free u = true →
  String.prefix (v +:+ ":") (u +:+ ":" +:+ rest) = true → v = u.
Proof.
  revert u. induction v as [|a v IH]; intros [|b u] Hv Hu Hp.
  - done.
  - apply colon_free_cons in Hu as [Hb _].
    rewrite append_nil_l, append_cons, prefix_cons in Hp.
    by destruct (ascii_dec ":" b).
  - apply colon_free_cons in Hv as [Ha _].
    rewrite append_nil_l, !append_cons, prefix_cons in Hp.
    by destruct (ascii_dec a ":").
  - apply colon_free_cons in Hv as [_ Hv], Hu as [_ Hu].
    rewrite !append_cons, prefix_cons in Hp.
    destruct (ascii_dec a b) as [->|]; [|done].
    f_equal. by apply IH.
Qed.

Lemma bookmark_key_prefix (u bid : string) :
  bookmark_key u bid = user_prefix u +:+ bid.
Proof. unfold bookmark_key, user_prefix. by rewrite !append_assoc. Qed.

Lemma own_key_in_scope (u bid : string) :
  String.prefix (user_prefix u) (bookmark_key u bid) = true.
Proof. rewrite bookmark_key_prefix. apply prefix_app. Qed.

Lemma bookmark_key_inj (u i j : string) :
  bookmark_key u i = bookmark_key u j → i = j.
Proof.
  unfold bookmark_key. intros H.
  by repeat apply (inj (String.app _)) in H.
Qed.

(** Between colon-free users, a key is in the scope of its owner alone. *)
Lemma foreign_key_out_of_scope (u v bid : string) :
  colon_free u = true → colon_free v = true →
  String.prefix (user_prefix v) (bookmark_key u bid) = true → v = u.
Proof.
  intros Hu Hv. unfold user_prefix, bookmark_key.
  rewrite prefix_app_cancel. by apply colon_prefix_inj.
Qed.

(** Among identifiers of one length, the characters before the separator
    are the identifier. *)
Lemma same_length_prefix_inj (v u rest : string) :
  String.length v = String.length u →
  String.prefix (v +:+ ":") (u +:+ ":" +:+ rest) = true → v = u.
Proof.
  revert u. induction v as [|a v IH]; intros [|b u] Hlen Hp; try done.
  rewrite !append_cons, prefix_cons in Hp.
  destruct (ascii_dec a b) as [->|]; [|done].
  f_equal. apply IH; [|done]. by injection Hlen.
Qed.

(** Between users whose identifiers have the same length, a key is in the
    scope of its owner alone. *)
Lemma sibling_key_out_of_scope (u v bid : string) :
  String.length v = String.length u →
  String.prefix (user_prefix v) (bookmark_key u bid) = true → v = u.
Proof.
  intros Hlen. unfold user_prefix, bookmark_key.
  rewrite prefix_app_cancel. by apply same_length_prefix_inj.
Qed.

Lemma sibling_key_owner (u v i j : string) :
  String.length v = String.length u →
  bookmark_key u i = bookmark_key v j → v = u.
Proof.
  intros Hlen Heq. apply (sibling_key_out_of_scope u v i Hlen).
  rewrite Heq. apply own_key_in_scope.
Qed.

(** ** The authorization preamble *)

Lemma caller_Some e c u :
  caller e c = Some u ↔
  ∃ a token, accessToken c = Some (String a token)
    ∧ rejected (getUser e (String a token)) = false
    ∧ uid_of (getUser e (String a token)) = u.
Proof.
  unfold caller. split.
  - destruct (accessToken c) as [[|a token]|]; [done| |done].
    destruct (rejected _) eqn:Hrej; [done|]. intros [= <-]. eauto.
  - intros (a & token & -> & -> & ->). done.
Qed.

Lemma caller_None e c :
  caller e c = None ↔ credential_missing c ∨ verification_fails e c.
Proof.
  unfold caller, credential_missing, verification_fails. split.
  - destruct (accessToken c) as [[|a token]|]; [auto| |auto].
    destruct (rejected _) eqn:Hrej; [|done]. intros _. right. eauto.
  - intros [[->| ->]|(token & -> & ->)]; [done..|]. by destruct token.
Qed.

(** A verified identifier is never empty. *)
Lemma caller_nonempty e c u : caller e c = Some u → u ≠ EmptyString.
Proof.
  intros (a & token & _ & Hrej & <-)%caller_Some.
  unfold rejected, uid_of in *.
  destruct (auth_error _), (data_user _) as [user|]; try done.
  intros Heq. by rewrite Heq in Hrej.
Qed.

#[local] Arguments truthy : simpl never.

Ltac enter_handler :=
  unfold serve, handler, get_bookmarks, post_bookmarks, delete_bookmark,
    try_catch; simpl.

Ltac pass_auth H :=
  let a := fresh "a" in
  let token := fresh "token" in
  let Htok := fresh "Htok" in
  let Hrej := fresh "Hrej" in
  let Huid := fresh "Huid" in
  apply caller_Some in H as (a & token & Htok & Hrej & Huid);
  enter_handler; rewrite Htok, Hrej, ?Huid;
  unfold mbind, eff_bind, mret, eff_ret.

(** Without a verified caller every route answers 401 and the world is
    left exactly as it was: no call on the table is even attempted. *)
Lemma serve_unauthorized e q w :
  caller e (ctx q) = None →
  ∃ msg, serve e q w = (c_json (Failure msg None) 401, w).
Proof.
  unfold caller. intros H. destruct q as [r c]. simpl in H.
  destruct r; enter_handler;
    (destruct (accessToken c) as [[|a token]|]; [by eexists| |by eexists]);
    (destruct (rejected _); [by eexists|done]).
Qed.

Lemma serve_list e c w u :
  caller e c = Some u →
  serve e {| route := GET_bookmarks; ctx := c |} w =
  match kv_failure e with
  | Some err =>
      (c_json (Failure "Failed to fetch bookmarks" (Some err)) 500,
       record (Scan (user_prefix u)) w)
  | None =>
      (c_json (Bookmarks ((scan (user_prefix u) (kv w)).*2)) 200,
       record (Scan (user_prefix u)) w)
  end.
Proof.
  intros H. pass_auth H. unfold kv_getByPrefix.
  by destruct (kv_failure e).
Qed.

Lemma serve_delete e c w u :
  caller e c = Some u →
  serve e {| route := DELETE_bookmark; ctx := c |} w =
  match kv_failure e with
  | Some err =>
      (c_json (Failure "Failed to delete bookmark" (Some err)) 500,
       record (Remove (bookmark_key u (param_id c))) w)
  | None =>
      (c_json (Success true) 200,
       {| kv := delete (bookmark_key u (param_id c)) (kv w);
          accesses := accesses w ++ [Remove (bookmark_key u (param_id c))] |})
  end.
Proof.
  intros H. pass_auth H. unfold kv_del.
  by destruct (kv_failure e).
Qed.

Lemma serve_create e c w u body vu vt :
  caller e c = Some u →
  req_json c = Some body →
  prop "url" body = Some vu → truthy (Some vu) = true →
  prop "title" body = Some vt → truthy (Some vt) = true →
  serve e {| route := POST_bookmarks; ctx := c |} w =
  match kv_failure e with
  | Some err =>
      (c_json (Failure "Failed to add bookmark" (Some err)) 500,
       record (Put (bookmark_key u (randomUUID e)) (fresh_bookmark e u vu vt)) w)
  | None =>
      (c_json (Created (fresh_bookmark e u vu vt)) 200,
       {| kv := <[bookmark_key u (randomUUID e) := fresh_bookmark e u vu vt]> (kv w);
          accesses := accesses w
            ++ [Put (bookmark_key u (randomUUID e)) (fresh_bookmark e u vu vt)] |})
  end.
Proof.
  intros H Hbody Hu Htu Ht Htt. pass_auth H.
  unfold parse_body, destructure, kv_set, mret, eff_ret. rewrite Hbody.
  destruct body; try done. simpl in Hu, Ht. simpl.
  rewrite Hu, Ht, Htu, Htt. simpl.
  by destruct (kv_failure e).
Qed.

Lemma serve_create_invalid e c w u body :
  caller e c = Some u →
  req_json c = Some body → body ≠ JNull →
  truthy (prop "url" body) = false ∨ truthy (prop "title" body) = false →
  serve e {| route := POST_bookmarks; ctx := c |} w =
  (c_json (Failure "URL and title are required" None) 400, w).
Proof.
  intros H Hbody Hnn Hfalsy. pass_auth H.
  unfold parse_body, destructure, mret, eff_ret. rewrite Hbody.
  destruct body; try done; simpl in *;
    try (by destruct Hfalsy).
  destruct (assoc "url" fields) as [vu|], (assoc "title" fields) as [vt|];
    try done.
  by destruct Hfalsy as [-> | ->]; rewrite ?orb_true_r.
Qed.

Lemma serve_create_throws e c w u :
  caller e c = Some u →
  req_json c = None ∨ req_json c = Some JNull →
  ∃ err,
    serve e {| route := POST_bookmarks; ctx := c |} w =
    (c_json (Failure "Failed to add bookmark" (Some err)) 500, w).
Proof.
  intros H Hbody. pass_auth H.
  unfold parse_body, destructure, throw.
  destruct Hbody as [-> | ->]; by eexists.
Qed.

(** ** What one request does to the table *)

Lemma serve_effect e q w :
  (kv (serve e q w).2 = kv w
   ∧ (route q = GET_bookmarks
      ∨ ∃ msg details st, (serve e q w).1 = c_json (Failure msg details) st))
  ∨ (∃ u vu vt,
       caller e (ctx q) = Some u ∧ route q = POST_bookmarks
       ∧ (serve e q w).1 = c_json (Created (fresh_bookmark e u vu vt)) 200
       ∧ kv (serve e q w).2
         = <[bookmark_key u (randomUUID e) := fresh_bookmark e u vu vt]> (kv w))
  ∨ (∃ u,
       caller e (ctx q) = Some u ∧ route q = DELETE_bookmark
       ∧ (serve e q w).1 = c_json (Success true) 200
       ∧ kv (serve e q w).2 = delete (bookmark_key u (param_id (ctx q))) (kv w)).
Proof.
  destruct (caller e (ctx q)) as [u|] eqn:Hc.
  2:{ destruct (serve_unauthorized e q w Hc) as [msg ->]. left. eauto 6. }
  destruct q as [[] c]; simpl in *.
  - rewrite (serve_list e c w u Hc). left. destruct (kv_failure e); eauto.
  - destruct (req_json c) as [body|] eqn:Hbody.
    2:{ destruct (serve_create_throws e c w u Hc) as [err ->]; [auto|].
        left. eauto 6. }
    assert (body = JNull ∨ body ≠ JNull) as [->|Hnn]
      by (destruct body; auto).
    { destruct (serve_create_throws e c w u Hc) as [err ->]; [auto|].
      left. eauto 6. }
    destruct (truthy (prop "url" body)) eqn:Htu.
    2:{ rewrite (serve_create_invalid e c w u body); auto. left. eauto 6. }
    destruct (truthy (prop "title" body)) eqn:Htt.
    2:{ rewrite (serve_create_invalid e c w u body); auto. left. eauto 6. }
    destruct (prop "url" body) as [vu|] eqn:Hu; [|done].
    destruct (prop "title" body) as [vt|] eqn:Ht; [|done].
    rewrite (serve_create e c w u body vu vt) by done.
    destruct (kv_failure e); [left; eauto 6|].
    right; left. by exists u, vu, vt.
  - rewrite (serve_delete e c w u Hc).
    destruct (kv_failure e); [left; eauto 6|].
    right; right. by exists u.
Qed.

Lemma bookmark_key_owner (u v i j : string) :
  colon_free u = true → colon_free v = true →
  bookmark_key u i = bookmark_key v j → v = u.
Proof.
  intros Hu Hv Heq. apply (foreign_key_out_of_scope u v i Hu Hv).
  rewrite Heq. apply own_key_in_scope.
Qed.

Lemma serve_keys_agree e q w :
  keys_agree (kv w) → keys_agree (kv (serve e q w).2).
Proof.
  intros Hk.
  destruct (serve_effect e q w)
    as [[-> _]|[(u & vu & vt & _ & _ & _ & ->)|(u & _ & _ & _ & ->)]];
    [done| |]; intros k b.
  - rewrite lookup_insert. case_decide as Hkey; [|by apply Hk].
    by intros [= <-].
  - rewrite lookup_delete. case_decide; [done|by apply Hk].
Qed.

Lemma serve_owners e q w n :
  (∀ v, caller e (ctx q) = Some v → String.length v = n) →
  owners_of_length n (kv w) → owners_of_length n (kv (serve e q w).2).
Proof.
  intros Hcf Ho.
  destruct (serve_effect e q w)
    as [[-> _]|[(u & vu & vt & Hc & _ & _ & ->)|(u & _ & _ & _ & ->)]];
    [done| |]; intros k b.
  - rewrite lookup_insert. case_decide; [|by apply Ho].
    intros [= <-]. by apply Hcf.
  - rewrite lookup_delete. case_decide; [done|by apply Ho].
Qed.

Lemma serve_unused e q w rest :
  NoDup (generated ((e, q) :: rest)) →
  unused (generated ((e, q) :: rest)) (kv w) →
  unused (generated rest) (kv (serve e q w).2).
Proof.
  intros Hnd Hun.
  assert (unused (generated rest) (kv w)) as Hun'.
  { intros k b Hkb Hin. apply (Hun k b Hkb). simpl.
    destruct (route q); auto using list_elem_of_further. }
  destruct (serve_effect e q w)
    as [[-> _]|[(u & vu & vt & _ & Hr & _ & ->)|(u & _ & _ & _ & ->)]];
    [done| |]; intros k b.
  - rewrite lookup_insert. case_decide; [|by apply Hun'].
    intros [= <-]. simpl in *. rewrite Hr in Hnd.
    by apply NoDup_cons in Hnd as [? _].
  - rewrite lookup_delete. case_decide; [done|by apply Hun'].
Qed.

(** One exchange keeps the table and the caller's live bookmarks in step. *)
Lemma serve_consistent e q w u l :
  (∀ v, caller e (ctx q) = Some v → String.length v = String.length u) →
  (route q = POST_bookmarks → unused [randomUUID e] (kv w)) →
  consistent u (kv w) l →
  consistent u (kv (serve e q w).2)
    (observe u {| ex_env := e; ex_request := q;
                  ex_response := (serve e q w).1 |} l).
Proof.
  intros Hcf Hfresh [Hnd Hl]. unfold observe. simpl.
  destruct (serve_effect e q w)
    as [[-> Hresp]|[(v & vu & vt & Hc & Hr & -> & ->)
                   |(v & Hc & Hr & -> & ->)]].
  - assert (match route q, payload (serve e q w).1 with
            | POST_bookmarks, Created b => l ++ [b]
            | DELETE_bookmark, Success true =>
                filter (λ b, id b ≠ param_id (ctx q)) l
            | _, _ => l
            end = l) as ->.
    { destruct Hresp as [->|(msg & d & st & ->)]; [done|].
      by destruct (route q). }
    by destruct (bool_decide _).
  - rewrite Hc, Hr. simpl. specialize (Hfresh Hr).
    set (b := fresh_bookmark e v vu vt).
    case_bool_decide as Hv.
    + injection Hv as ->. split.
      * apply NoDup_app. split_and!; [done| |apply NoDup_singleton].
        intros b' Hin ->%list_elem_of_singleton. apply Hl in Hin.
        apply (Hfresh _ _ Hin). by left.
      * intros b'. rewrite elem_of_app, list_elem_of_singleton, lookup_insert.
        case_decide as Hkey.
        -- apply bookmark_key_inj in Hkey. split; [|by intros [= ->]; right].
           intros [Hin| ->]; [|done]. apply Hl in Hin.
           destruct (Hfresh _ _ Hin). rewrite <- Hkey. by left.
        -- rewrite <- Hl. split; [|by left]. intros [Hin| ->]; [done|].
           by destruct Hkey.
    + split; [done|]. intros b'. rewrite lookup_insert_ne; [by apply Hl|].
      intros Hkey. apply sibling_key_owner in Hkey; [congruence|].
      symmetry. by apply Hcf.
  - rewrite Hc, Hr. simpl.
    case_bool_decide as Hv.
    + injection Hv as ->. split; [by apply NoDup_filter|].
      intros b'. rewrite list_elem_of_filter, lookup_delete.
      case_decide as Hkey.
      * apply bookmark_key_inj in Hkey. split; [|done]. by intros [? _].
      * rewrite <- Hl. split; [by intros [_ ?]|]. intros Hin. split; [|done].
        intros Heq. apply Hkey. by rewrite Heq.
    + split; [done|]. intros b'. rewrite lookup_delete_ne; [by apply Hl|].
      intros Hkey. apply sibling_key_owner in Hkey; [congruence|].
      symmetry. by apply Hcf.
Qed.

(** ** Runs *)

Lemma run_cons e q rest w :
  run ((e, q) :: rest) w =
  ({| ex_env := e; ex_request := q; ex_response := (serve e q w).1 |}
     :: (run rest (serve e q w).2).1,
   (run rest (serve e q w).2).2).
Proof.
  simpl. destruct (serve e q w) as [resp w']. simpl.
  by destruct (run rest w').
Qed.

Lemma run_consistent steps : ∀ w l u,
  (∀ e q, (e, q) ∈ steps →
     ∀ v, caller e (ctx q) = Some v → String.length v = String.length u) →
  NoDup (generated steps) →
  unused (generated steps) (kv w) →
  keys_agree (kv w) → owners_of_length (String.length u) (kv w) →
  consistent u (kv w) l →
  keys_agree (kv (run steps w).2)
  ∧ owners_of_length (String.length u) (kv (run steps w).2)
  ∧ consistent u (kv (run steps w).2) (live_from u l (run steps w).1).
Proof.
  induction steps as [|[e q] rest IH]; intros w l u Hcf Hnd Hun Hk Ho Hl.
  { done. }
  rewrite run_cons. simpl.
  assert (∀ v, caller e (ctx q) = Some v → String.length v = String.length u)
    as Hcf1 by (apply Hcf; left).
  apply IH; clear IH.
  - intros e' q' Hin. apply Hcf. by right.
  - simpl in Hnd. destruct (route q); [done| |done].
    by apply NoDup_cons in Hnd as [_ ?].
  - by apply serve_unused.
  - by apply serve_keys_agree.
  - by apply serve_owners.
  - apply serve_consistent; [done..| |done].
    intros Hr k b Hkb Hin%list_elem_of_singleton.
    apply (Hun k b Hkb). simpl. rewrite Hr, Hin. by left.
Qed.

(** A scan of [u]'s prefix enumerates exactly [u]'s live bookmarks. *)
Lemma scan_consistent (u : string) (m : gmap string Bookmark) (l : list Bookmark) :
  keys_agree m → owners_of_length (String.length u) m →
  consistent u m l → (scan (user_prefix u) m).*2 ≡ₚ l.
Proof.
  intros Hk Ho [Hnd Hl]. unfold scan. apply NoDup_Permutation; [|done|].
  - apply NoDup_fmap_2_strong; [|apply NoDup_map_to_list].
    intros [k1 b1] [k2 b2] H1%elem_of_map_to_list H2%elem_of_map_to_list.
    simpl. intros <-.
    apply map_lookup_filter_Some in H1 as [H1 _], H2 as [H2 _].
    by rewrite (Hk _ _ H1), (Hk _ _ H2).
  - intros b. rewrite list_elem_of_fmap. split.
    + intros ([k b'] & -> & Hin%elem_of_map_to_list). simpl.
      apply map_lookup_filter_Some in Hin as [Hkb Hp]. simpl in Hp.
      apply Hl. rewrite <- Hkb. f_equal.
      rewrite (Hk _ _ Hkb) in Hp |- *.
      apply Is_true_true in Hp.
      rewrite (sibling_key_out_of_scope (userId b') u (id b')); [done| |done].
      symmetry. by eapply Ho.
    + intros Hin%Hl. exists (bookmark_key u (id b), b). split; [done|].
      apply elem_of_map_to_list, map_lookup_filter_Some. split; [done|].
      simpl. apply Is_true_true, own_key_in_scope.
Qed.

Lemma consistent_owner (u : string) (m : gmap string Bookmark) l b :
  keys_agree m → owners_of_length (String.length u) m →
  consistent u m l → b ∈ l → userId b = u.
Proof.
  intros Hk Ho [_ Hl] Hin%Hl.
  pose proof (Hk _ _ Hin) as Hkey.
  eapply sibling_key_owner; [|exact Hkey]. by eapply Ho.
Qed.

(** ** Authorization and validation failures *)

(** C4.  On each of the three bookmark routes, a request whose
    Authorization header is absent, carries no token, or carries a token the
    identity provider does not verify, is answered with status 401, and the
    world is left as it was: the table is unchanged and no call on the
    key-value adapter (scan, put or remove) has been made. *)
Theorem unauthorized_touches_nothing (r : Route) (e : Env) (c : Context) (w : World) :
  authorization c = None ∨ credential_missing c ∨ verification_fails e c →
  status (serve e {| route := r; ctx := c |} w).1 = 401
  ∧ (serve e {| route := r; ctx := c |} w).2 = w.
Proof.
  intros H.
  assert (caller e c = None) as Hc.
  { apply caller_None. destruct H as [H|[H|H]]; [left; left|by left|by right].
    unfold accessToken. by rewrite H. }
  by destruct (serve_unauthorized e {| route := r; ctx := c |} w Hc) as [msg ->].
Qed.

Lemma unauthorized_touches_nothing_witness :
  status (serve storage_down
            {| route := DELETE_bookmark;
               ctx := {| authorization := Some "Bearer stolen-token";
                         req_json := None;
                         param_id := "0d9f2c1e-5b6a-4c7d-8e9f-a1b2c3d4e5f6" |} |}
            empty_world).1 = 401
  ∧ (serve storage_down
       {| route := DELETE_bookmark;
          ctx := {| authorization := Some "Bearer stolen-token";
                    req_json := None;
                    param_id := "0d9f2c1e-5b6a-4c7d-8e9f-a1b2c3d4e5f6" |} |}
       empty_world).2 = empty_world.
Proof.
  apply (unauthorized_touches_nothing DELETE_bookmark storage_down).
  right; right. exists "stolen-token". split; reflexivity.
Defined.

(** C2.  A create request from a verified caller [u] whose body carries
    truthy [url] and [title] (in particular non-empty strings), whatever
    else the body carries, is answered, when the table accepts the write,
    with a bookmark; and any bookmark it is answered with has [userId = u],
    the identifier and the timestamp drawn by the server, the two values of
    the body, and is the very record found afterwards in the table under
    its key and passed to the adapter's [set]. *)
Theorem create_returns_stored_record (e : Env) (c : Context) (w : World)
    (u : string) (body vu vt : json) :
  caller e c = Some u →
  req_json c = Some body →
  prop "url" body = Some vu → truthy (Some vu) = true →
  prop "title" body = Some vt → truthy (Some vt) = true →
  (kv_failure e = None →
     ∃ b, (serve e {| route := POST_bookmarks; ctx := c |} w).1
          = c_json (Created b) 200)
  ∧ ∀ b,
      payload (serve e {| route := POST_bookmarks; ctx := c |} w).1 = Created b →
      userId b = u
      ∧ id b = randomUUID e ∧ createdAt b = toISOString e
      ∧ url b = vu ∧ title b = vt
      ∧ kv (serve e {| route := POST_bookmarks; ctx := c |} w).2
          !! bookmark_key u (id b) = Some b
      ∧ accesses (serve e {| route := POST_bookmarks; ctx := c |} w).2
        = accesses w ++ [Put (bookmark_key u (id b)) b].
Proof.
  intros Hc Hbody Hu Htu Ht Htt.
  rewrite (serve_create e c w u body vu vt) by done.
  destruct (kv_failure e) as [err|]; simpl.
  - split; [done|]. intros b [=].
  - split; [eauto|]. intros b [= <-]. simpl.
    by rewrite lookup_insert_eq.
Qed.

Lemma create_returns_stored_record_witness :
  ∃ b,
    (serve (at_time "9a3e6b70-2f4d-4c1b-b8a5-6d7e8f901234")
       (create_request "alice-token"
          (JObj [("id", JStr "chosen-by-client"); ("userId", JStr bob);
                 ("url", JStr "https://x.com"); ("title", JStr "X")]))
       empty_world).1 = c_json (Created b) 200
    ∧ userId b = alice.
Proof.
  pose proof
    (create_returns_stored_record
       (at_time "9a3e6b70-2f4d-4c1b-b8a5-6d7e8f901234")
       (ctx (create_request "alice-token"
          (JObj [("id", JStr "chosen-by-client"); ("userId", JStr bob);
                 ("url", JStr "https://x.com"); ("title", JStr "X")])))
       empty_world alice _ (JStr "https://x.com") (JStr "X")
       eq_refl eq_refl eq_refl eq_refl eq_refl eq_refl) as [Hret Hrec].
  destruct (Hret eq_refl) as [b Hb]. exists b. split; [exact Hb|].
  apply Hrec. exact (f_equal payload Hb).
Defined.

(** C6.  A create request from a verified caller whose body is the JSON
    value [null] carries neither [url] nor [title], and the claim has it
    answered with 400 like every other body without them (the bodies [5],
    ["x"] and [{}] are).  The handler destructures the body before it
    validates it, so [null] throws and the answer is 500.  A body that is
    not JSON at all fares the same. *)
Lemma create_null_body_is_500 :
  caller (at_time "9a3e6b70-2f4d-4c1b-b8a5-6d7e8f901234")
    (ctx (create_request "alice-token" JNull)) = Some alice
  ∧ prop "url" JNull = None ∧ prop "title" JNull = None
  ∧ (serve (at_time "9a3e6b70-2f4d-4c1b-b8a5-6d7e8f901234")
       (create_request "alice-token" JNull) empty_world).1
    = c_json
        (Failure "Failed to add bookmark"
           (Some "TypeError: Cannot destructure property 'url' of 'body' as it is null."))
        500
  ∧ status
      (serve (at_time "9a3e6b70-2f4d-4c1b-b8a5-6d7e8f901234")
         {| route := POST_bookmarks;
            ctx := {| authorization := bearer "alice-token";
                      req_json := None; param_id := EmptyString |} |}
         empty_world).1 = 500.
Proof. repeat split. Qed.

(** ** Delete *)

(** C5.  Two delete requests from the same verified caller for the same id,
    served one after the other while the table is available, are both
    answered with [{success: true}] and status 200, whether or not the id
    was ever stored, and the table after the second is the table after the
    first. *)
Theorem delete_idempotent (e1 e2 : Env) (c1 c2 : Context) (w : World)
    (u : string) :
  caller e1 c1 = Some u → caller e2 c2 = Some u →
  param_id c1 = param_id c2 →
  kv_failure e1 = None → kv_failure e2 = None →
  (serve e1 {| route := DELETE_bookmark; ctx := c1 |} w).1
  = c_json (Success true) 200
  ∧ (serve e2 {| route := DELETE_bookmark; ctx := c2 |}
       (serve e1 {| route := DELETE_bookmark; ctx := c1 |} w).2).1
    = c_json (Success true) 200
  ∧ kv (serve e2 {| route := DELETE_bookmark; ctx := c2 |}
          (serve e1 {| route := DELETE_bookmark; ctx := c1 |} w).2).2
    = kv (serve e1 {| route := DELETE_bookmark; ctx := c1 |} w).2.
Proof.
  intros H1 H2 Hid Hf1 Hf2.
  rewrite (serve_delete e1 c1 w u H1), Hf1. simpl.
  rewrite (serve_delete e2 c2 _ u H2), Hf2. simpl.
  rewrite Hid. by rewrite delete_delete_eq.
Qed.

Lemma delete_idempotent_witness :
  (serve (at_time "9a3e6b70-2f4d-4c1b-b8a5-6d7e8f901234")
     (delete_request "alice-token" "never-stored") empty_world).1
  = c_json (Success true) 200
  ∧ (serve (at_time "1c2d3e4f-5a6b-4c7d-8e9f-0a1b2c3d4e5f")
       (delete_request "alice-token" "never-stored")
       (serve (at_time "9a3e6b70-2f4d-4c1b-b8a5-6d7e8f901234")
          (delete_request "alice-token" "never-stored") empty_world).2).1
    = c_json (Success true) 200
  ∧ kv (serve (at_time "1c2d3e4f-5a6b-4c7d-8e9f-0a1b2c3d4e5f")
          (delete_request "alice-token" "never-stored")
          (serve (at_time "9a3e6b70-2f4d-4c1b-b8a5-6d7e8f901234")
             (delete_request "alice-token" "never-stored") empty_world).2).2
    = kv (serve (at_time "9a3e6b70-2f4d-4c1b-b8a5-6d7e8f901234")
            (delete_request "alice-token" "never-stored") empty_world).2.
Proof.
  apply (delete_idempotent
           (at_time "9a3e6b70-2f4d-4c1b-b8a5-6d7e8f901234")
           (at_time "1c2d3e4f-5a6b-4c7d-8e9f-0a1b2c3d4e5f")
           (ctx (delete_request "alice-token" "never-stored"))
           (ctx (delete_request "alice-token" "never-stored"))
           empty_world alice); reflexivity.
Defined.

(** ** List *)

(** C9 (as stated, refuted).  A list request from a verified caller, served
    while the table cannot be read, is answered with status 500 and an
    error body: an outcome that is neither 401 nor the list of bookmarks. *)
Lemma list_fails_with_500 :
  caller storage_down (ctx (list_request "alice-token")) = Some alice
  ∧ (serve storage_down (list_request "alice-token") empty_world).1
    = c_json
        (Failure "Failed to fetch bookmarks" (Some "Error: connection refused"))
        500.
Proof. split; reflexivity. Qed.

(** C9 (amended).  A list request has exactly three outcomes: 401 when no
    caller is verified; 500 with the error ['Failed to fetch bookmarks'] when
    the caller is verified and the scan of the table fails; and otherwise
    status 200 with the list of bookmarks. *)
Theorem list_outcomes (e : Env) (c : Context) (w : World) :
  (caller e c = None
   ∧ status (serve e {| route := GET_bookmarks; ctx := c |} w).1 = 401)
  ∨ (∃ u err,
       caller e c = Some u ∧ kv_failure e = Some err
       ∧ (serve e {| route := GET_bookmarks; ctx := c |} w).1
         = c_json (Failure "Failed to fetch bookmarks" (Some err)) 500)
  ∨ (∃ u bs,
       caller e c = Some u ∧ kv_failure e = None
       ∧ (serve e {| route := GET_bookmarks; ctx := c |} w).1
         = c_json (Bookmarks bs) 200).
Proof.
  destruct (caller e c) as [u|] eqn:Hc.
  - right. rewrite (serve_list e c w u Hc).
    destruct (kv_failure e) as [err|]; [left|right]; eauto.
  - left. split; [done|].
    by destruct (serve_unauthorized e {| route := GET_bookmarks; ctx := c |} w Hc)
      as [msg ->].
Qed.

(** ** The key layout *)

(** C8.  In every world the edge function can bring about from an empty
    table, by any sequence of requests, each stored record sits under the
    key ['bookmarks:' + userId + ':' + id] spelled by its own [userId] and
    [id] fields. *)
Theorem stored_key_matches_record (w : World) (k : string) (b : Bookmark) :
  reachable w →
  kv w !! k = Some b →
  k = "bookmarks:" +:+ userId b +:+ ":" +:+ id b.
Proof.
  intros Hw. revert k b. change (keys_agree (kv w)).
  induction Hw as [|e q w _ IH].
  - intros k b. simpl. by rewrite lookup_empty.
  - by apply serve_keys_agree.
Qed.

Lemma stored_key_matches_record_witness :
  "bookmarks:5f0c1a52-8a77-4c0e-9d57-0e3b7a0c1a11:9a3e6b70-2f4d-4c1b-b8a5-6d7e8f901234"
  = "bookmarks:"
      +:+ userId (fresh_bookmark (at_time "9a3e6b70-2f4d-4c1b-b8a5-6d7e8f901234")
                    alice (JStr "https://x.com") (JStr "X"))
      +:+ ":"
      +:+ id (fresh_bookmark (at_time "9a3e6b70-2f4d-4c1b-b8a5-6d7e8f901234")
                alice (JStr "https://x.com") (JStr "X")).
Proof.
  apply (stored_key_matches_record
           (serve (at_time "9a3e6b70-2f4d-4c1b-b8a5-6d7e8f901234")
              (create_request "alice-token" x_com) empty_world).2).
  - apply reachable_serve, reachable_empty.
  - vm_compute. reflexivity.
Defined.

(** ** Isolation between users *)

(** C3.  For two distinct users [A] and [B], with identifiers of one
    length as the identity provider issues them, and any id parameter, a
    delete request served for [A] changes no record under a key that starts
    with [B]'s prefix, and the answer to a list request of [B] is the same
    after it as before it: the key deleted is built from [A]'s verified
    identifier. *)
Theorem delete_spares_other_users (A B : string) (eA eB : Env)
    (cA cB : Context) (w : World) :
  A ≠ B → String.length A = String.length B →
  caller eA cA = Some A → caller eB cB = Some B →
  (∀ k, String.prefix (user_prefix B) k = true →
     kv (serve eA {| route := DELETE_bookmark; ctx := cA |} w).2 !! k
     = kv w !! k)
  ∧ (serve eB {| route := GET_bookmarks; ctx := cB |}
       (serve eA {| route := DELETE_bookmark; ctx := cA |} w).2).1
    = (serve eB {| route := GET_bookmarks; ctx := cB |} w).1.
Proof.
  intros Hne Hlen HcA HcB.
  rewrite (serve_delete eA cA w A HcA), !(serve_list eB cB _ B HcB).
  assert (∀ k, String.prefix (user_prefix B) k = true →
               k ≠ bookmark_key A (param_id cA)) as Hout.
  { intros k Hp ->. apply sibling_key_out_of_scope in Hp; [|done].
    by apply Hne. }
  destruct (kv_failure eA) as [errA|]; simpl.
  { split; [done|]. by destruct (kv_failure eB). }
  split.
  - intros k Hp. apply lookup_delete_ne. intros Heq. by apply (Hout k).
  - destruct (kv_failure eB); [done|]. simpl. unfold scan.
    rewrite map_filter_delete, delete_id; [done|].
    apply map_lookup_filter_None. right. intros b _ Hp%Is_true_true.
    by apply (Hout _ Hp).
Qed.

Lemma delete_spares_other_users_witness :
  let w := (serve (at_time "9a3e6b70-2f4d-4c1b-b8a5-6d7e8f901234")
              (create_request "bob-token" x_com) empty_world).2 in
  (serve (at_time "1c2d3e4f-5a6b-4c7d-8e9f-0a1b2c3d4e5f")
     (list_request "bob-token")
     (serve (at_time "1c2d3e4f-5a6b-4c7d-8e9f-0a1b2c3d4e5f")
        (delete_request "alice-token" "9a3e6b70-2f4d-4c1b-b8a5-6d7e8f901234")
        w).2).1
  = (serve (at_time "1c2d3e4f-5a6b-4c7d-8e9f-0a1b2c3d4e5f")
       (list_request "bob-token") w).1.
Proof.
  intros w.
  apply (delete_spares_other_users alice bob
           (at_time "1c2d3e4f-5a6b-4c7d-8e9f-0a1b2c3d4e5f")
           (at_time "1c2d3e4f-5a6b-4c7d-8e9f-0a1b2c3d4e5f")
           (ctx (delete_request "alice-token"
                   "9a3e6b70-2f4d-4c1b-b8a5-6d7e8f901234"))
           (ctx (list_request "bob-token")) w);
    [discriminate|reflexivity..].
Defined.

(** C1.  Let [A] and [B] be distinct users, with identifiers of one length
    as the identity provider issues them.  After any run of requests from
    an empty table, served while the table is available, in which every
    verified caller is [A] or [B] and the identifiers drawn for the create
    requests are pairwise distinct, a list request of [A] is answered with
    status 200 and, up to order, exactly the bookmarks that [A]'s create
    requests were answered with and that no successful delete request of
    [A] has named since; each of them has [userId = A] and none is one of
    [B]'s. *)
Theorem list_returns_live_bookmarks (A B : string)
    (steps : list (Env * Request)) (e : Env) (c : Context) :
  A ≠ B → String.length A = String.length B →
  (∀ e' q, (e', q) ∈ steps →
     kv_failure e' = None
     ∧ ∀ v, caller e' (ctx q) = Some v → v = A ∨ v = B) →
  NoDup (generated steps) →
  caller e c = Some A → kv_failure e = None →
  ∃ bs,
    (serve e {| route := GET_bookmarks; ctx := c |} (run steps empty_world).2).1
    = c_json (Bookmarks bs) 200
    ∧ bs ≡ₚ live A (run steps empty_world).1
    ∧ ∀ b, b ∈ bs → userId b = A ∧ b ∉ live B (run steps empty_world).1.
Proof.
  intros Hne Hlen Hsteps Hnd Hc Hf.
  assert (∀ u, String.length u = String.length A →
            keys_agree (kv (run steps empty_world).2)
            ∧ owners_of_length (String.length u) (kv (run steps empty_world).2)
            ∧ consistent u (kv (run steps empty_world).2)
                (live u (run steps empty_world).1)) as Hinv.
  { intros u Hu. apply run_consistent; try done.
    - intros e' q Hin v Hv.
      destruct (Hsteps e' q Hin) as [_ Hwho].
      destruct (Hwho v Hv) as [-> | ->]; congruence.
    - split; [constructor|]. intros b. simpl. rewrite lookup_empty.
      split; [by intros ?%not_elem_of_nil|done]. }
  destruct (Hinv A eq_refl) as (Hk & Ho & HlA).
  destruct (Hinv B (eq_sym Hlen)) as (_ & HoB & HlB).
  rewrite (serve_list e c _ A Hc), Hf. simpl.
  eexists. split; [done|].
  pose proof (scan_consistent A _ _ Hk Ho HlA) as Hperm.
  split; [done|]. intros b Hin. rewrite Hperm in Hin.
  pose proof (consistent_owner A _ _ b Hk Ho HlA Hin) as HbA.
  split; [done|]. intros HinB.
  pose proof (consistent_owner B _ _ b Hk HoB HlB HinB). congruence.
Qed.

Lemma list_returns_live_bookmarks_witness :
  ∃ bs,
    (serve (at_time "aaaaaaaa-0000-4000-8000-000000000004")
       (list_request "alice-token") (run busy_day empty_world).2).1
    = c_json (Bookmarks bs) 200
    ∧ bs ≡ₚ live alice (run busy_day empty_world).1
    ∧ ∀ b, b ∈ bs → userId b = alice ∧ b ∉ live bob (run busy_day empty_world).1.
Proof.
  apply (list_returns_live_bookmarks alice bob busy_day
           (at_time "aaaaaaaa-0000-4000-8000-000000000004")
           (ctx (list_request "alice-token"))).
  - discriminate.
  - reflexivity.
  - intros e' q Hin. unfold busy_day in Hin.
    repeat (apply elem_of_cons in Hin as [Hin|Hin];
            [injection Hin as -> ->; split; [reflexivity|];
             intros v Hv; vm_compute in Hv;
             first [discriminate Hv
                   | injection Hv as <-; first [by left | by right]]|]).
    by apply elem_of_nil in Hin.
  - apply (bool_decide_unpack _). vm_compute. exact I.
  - reflexivity.
  - reflexivity.
Defined.

(** ** The client's list under broadcast events *)

Lemma some_id_true (bid : string) (prev : list Bookmark) :
  some_id bid prev = true ↔ bid ∈ id <$> prev.
Proof.
  unfold some_id. induction prev as [|b prev IH]; simpl.
  - split; [done|]. by intros ?%not_elem_of_nil.
  - rewrite orb_true_iff, elem_of_cons, IH, String.eqb_eq.
    split; (intros [Heq|Hin]; [by left|by right]).
Qed.

Lemma added_event_step (uid : string) (ev : BookmarkEvent.t) (b : Bookmark)
    (prev : list Bookmark) :
  BookmarkEvent.userId ev = uid →
  BookmarkEvent.type ev = "added" →
  BookmarkEvent.bookmark ev = Some b →
  on_bookmark_change uid ev prev
  = if some_id (id b) prev then prev else b :: prev.
Proof.
  intros Hu Ht Hb. unfold on_bookmark_change.
  by rewrite Hu, String.eqb_refl, Ht, Hb.
Qed.

(** C7.  For an Added event of the session's user carrying bookmark [b]:
    when [b]'s id already occurs in the list, the list is left as it is;
    when it does not, [b] is put in front of the list; and so applying the
    event a second time changes nothing more. *)
Theorem added_event_deduplicates (uid : string) (ev : BookmarkEvent.t)
    (b : Bookmark) (prev : list Bookmark) :
  BookmarkEvent.userId ev = uid →
  BookmarkEvent.type ev = "added" →
  BookmarkEvent.bookmark ev = Some b →
  (id b ∈ id <$> prev → on_bookmark_change uid ev prev = prev)
  ∧ (id b ∉ id <$> prev → on_bookmark_change uid ev prev = b :: prev)
  ∧ on_bookmark_change uid ev (on_bookmark_change uid ev prev)
    = on_bookmark_change uid ev prev.
Proof.
  intros Hu Ht Hb.
  rewrite !(added_event_step uid ev b) by done.
  destruct (some_id (id b) prev) eqn:Hsome.
  - rewrite Hsome. apply some_id_true in Hsome. by split_and!.
  - assert (id b ∉ id <$> prev) as Hnot.
    { intros Hin%some_id_true. congruence. }
    split_and!; [done..|].
    assert (some_id (id b) (b :: prev) = true) as ->; [|done].
    apply some_id_true. simpl. by left.
Qed.

Lemma added_event_deduplicates_witness :
  let b := fresh_bookmark (at_time "9a3e6b70-2f4d-4c1b-b8a5-6d7e8f901234")
             alice (JStr "https://x.com") (JStr "X") in
  let ev := {| BookmarkEvent.type := "added";
               BookmarkEvent.bookmark := Some b;
               BookmarkEvent.bookmarkId := None;
               BookmarkEvent.userId := alice |} in
  on_bookmark_change alice ev [] = [b]
  ∧ on_bookmark_change alice ev [b] = [b].
Proof.
  intros b ev.
  destruct (added_event_deduplicates alice ev b [] eq_refl eq_refl eq_refl)
    as (_ & Hfresh & _).
  destruct (added_event_deduplicates alice ev b [b] eq_refl eq_refl eq_refl)
    as (Hdup & _ & _).
  split.
  - apply Hfresh. apply not_elem_of_nil.
  - apply Hdup. apply list_elem_of_here.
Defined.

(** C10.  A broadcast event that names another user, or whose type is
    neither ['added'] nor ['deleted'], or that is ['added'] without a
    bookmark, or ['deleted'] without a bookmark id, leaves the local list
    as it is. *)
Theorem malformed_event_ignored (uid : string) (ev : BookmarkEvent.t)
    (prev : list Bookmark) :
  BookmarkEvent.userId ev ≠ uid
  ∨ (BookmarkEvent.type ev ≠ "added" ∧ BookmarkEvent.type ev ≠ "deleted")
  ∨ (BookmarkEvent.type ev = "added" ∧ BookmarkEvent.bookmark ev = None)
  ∨ (BookmarkEvent.type ev = "deleted" ∧ BookmarkEvent.bookmarkId ev = None) →
  on_bookmark_change uid ev prev = prev.
Proof.
  unfold on_bookmark_change.
  intros [Hu|[[Ha Hd]|[[Ht Hb]|[Ht Hi]]]].
  - apply String.eqb_neq in Hu. by rewrite Hu.
  - apply String.eqb_neq in Ha, Hd. rewrite Ha, Hd.
    by destruct (negb _).
  - rewrite Ht, Hb. simpl. by destruct (negb _).
  - rewrite Ht, Hi. simpl. by destruct (negb _), (BookmarkEvent.bookmark ev).
Qed.

Lemma malformed_event_ignored_witness :
  let b := fresh_bookmark (at_time "9a3e6b70-2f4d-4c1b-b8a5-6d7e8f901234")
             alice (JStr "https://x.com") (JStr "X") in
  on_bookmark_change alice
    {| BookmarkEvent.type := "renamed";
       BookmarkEvent.bookmark := Some b;
       BookmarkEvent.bookmarkId := Some (id b);
       BookmarkEvent.userId := alice |} [b]
  = [b].
Proof.
  intros b. apply malformed_event_ignored.
  right; left. split; discriminate.
Defined.

(** * Further properties of the edge function *)

Lemma serve_served e q w : Served e q w (serve e q w).1 (serve e q w).2.
Proof.
  destruct (caller e (ctx q)) as [u|] eqn:Hc.
  2:{ destruct (serve_unauthorized e q w Hc) as [msg ->]. by constructor. }
  destruct q as [[] c]; simpl in Hc.
  - rewrite (serve_list e c w u Hc).
    destruct (kv_failure e) eqn:Hf; simpl;
      [by apply served_list_failed|by apply served_list].
  - destruct (req_json c) as [body|] eqn:Hbody.
    2:{ destruct (serve_create_throws e c w u Hc) as [err ->]; [auto|].
        eapply served_unreadable; eauto. }
    assert (body = JNull ∨ body ≠ JNull) as [->|Hnn]
      by (destruct body; auto).
    { destruct (serve_create_throws e c w u Hc) as [err ->]; [auto|].
      eapply served_unreadable; eauto. }
    destruct (truthy (prop "url" body)) eqn:Htu.
    2:{ rewrite (serve_create_invalid e c w u body); auto.
        eapply served_invalid; eauto. }
    destruct (truthy (prop "title" body)) eqn:Htt.
    2:{ rewrite (serve_create_invalid e c w u body); auto.
        eapply served_invalid; eauto. }
    destruct (prop "url" body) as [vu|] eqn:Hu; [|done].
    destruct (prop "title" body) as [vt|] eqn:Ht; [|done].
    rewrite (serve_create e c w u body vu vt) by done.
    destruct (kv_failure e) eqn:Hf; simpl;
      [eapply served_create_failed|eapply served_created]; eauto.
  - rewrite (serve_delete e c w u Hc).
    destruct (kv_failure e) eqn:Hf; simpl;
      [by apply served_delete_failed|by apply served_deleted].
Qed.

(** Case analysis on one served request. *)
Ltac served e q w :=
  let H := fresh "Hserved" in
  pose proof (serve_served e q w) as H;
  destruct (serve e q w) as [? ?]; cbn [fst snd] in *;
  destruct H; cbn [ctx route] in *.

Lemma try_catch_returns {A : Type} (body : Eff A) (h : string → Eff A) w :
  (∀ err w1, ∃ a w2, h err w1 = (Returned a, w2)) →
  ∃ a w2, try_catch body h w = (Returned a, w2).
Proof.
  intros Hh. unfold try_catch.
  destruct (body w) as [[a|err] w1]; [by eexists _, _|apply Hh].
Qed.

Lemma prefix_refl (s : string) : String.prefix s s = true.
Proof.
  induction s as [|a s IH]; [done|].
  rewrite prefix_cons. by destruct (ascii_dec a a).
Qed.

Lemma serve_answer e q w : Answer q (serve e q w).1.
Proof. served e q w; by constructor. Qed.

(** X1.  Every handler catches what its body throws, so no error escapes to
    the framework; and the answer is one of six shapes: 401 with an error
    message, 400 ['URL and title are required'] (create only), 500 with an
    error message and the text of the thrown error as details, or status
    200 with the payload of the route. *)
Theorem every_request_is_answered (r : Route) (e : Env) (c : Context) (w : World) :
  (∃ resp w', handler r e c w = (Returned resp, w'))
  ∧ Answer {| route := r; ctx := c |} (serve e {| route := r; ctx := c |} w).1.
Proof.
  split.
  - destruct r; apply try_catch_returns; intros err w1; by eexists _, _.
  - apply serve_answer.
Qed.

(** X2.  While the table is available, it is changed only by a request
    that is answered with status 200, and never by a list request: a
    request without a verified caller, with an unreadable body or with a
    missing field leaves every record where it was. *)
Theorem table_changes_only_on_success (e : Env) (q : Request) (w : World) :
  kv_failure e = None →
  status (serve e q w).1 ≠ 200 ∨ route q = GET_bookmarks →
  kv (serve e q w).2 = kv w.
Proof.
  intros Hf H. served e q w; simpl in *; try done; try congruence.
  - destruct H as [H|H]; [done|congruence].
  - destruct H as [H|H]; [done|congruence].
Qed.

Lemma table_changes_only_on_success_witness :
  kv (serve (at_time "aaaaaaaa-0000-4000-8000-000000000004")
        (create_request "alice-token"
           (JObj [("url", JStr "https://x.com")]))
        (run busy_day empty_world).2).2
  = kv (run busy_day empty_world).2.
Proof.
  apply (table_changes_only_on_success
           (at_time "aaaaaaaa-0000-4000-8000-000000000004")
           (create_request "alice-token"
              (JObj [("url", JStr "https://x.com")]))).
  - reflexivity.
  - left. vm_compute. discriminate.
Defined.

(** X3.  A request makes at most one call on the key-value adapter, none at
    all without a verified caller, and the key (or prefix) of that call
    starts with the verified caller's own prefix ['bookmarks:' + id + ':']. *)
Theorem adapter_calls_stay_in_scope (e : Env) (q : Request) (w : World) :
  accesses (serve e q w).2 = accesses w
  ∨ ∃ u a,
      caller e (ctx q) = Some u
      ∧ accesses (serve e q w).2 = accesses w ++ [a]
      ∧ String.prefix (user_prefix u) (touched a) = true.
Proof.
  served e q w; auto; right; eexists _, _;
    (split; [eassumption|]); (split; [reflexivity|]); cbn [touched];
    auto using prefix_refl, own_key_in_scope.
Qed.

Lemma scan_elem (p : string) (m : gmap string Bookmark) (b : Bookmark) :
  b ∈ (scan p m).*2 ↔ ∃ k, m !! k = Some b ∧ String.prefix p k = true.
Proof.
  unfold scan. rewrite list_elem_of_fmap. split.
  - intros ([k b'] & -> & Hin%elem_of_map_to_list).
    apply map_lookup_filter_Some in Hin as [Hkb Hp%Is_true_true].
    by exists k.
  - intros (k & Hkb & Hp). exists (k, b). split; [done|].
    apply elem_of_map_to_list, map_lookup_filter_Some.
    split; [done|]. by apply Is_true_true.
Qed.

Lemma reachable_agree w : reachable w → keys_agree (kv w).
Proof.
  induction 1 as [|e q w _ IH]; [|by apply serve_keys_agree].
  intros k b. simpl. by rewrite lookup_empty.
Qed.

(** X4.  A bookmark that a create request was answered with is among the
    bookmarks of the same caller's next list request, whatever the table
    held before. *)
Theorem created_bookmark_is_listed (e1 e2 : Env) (c1 c2 : Context)
    (w : World) (u : string) (b : Bookmark) :
  caller e1 c1 = Some u →
  (serve e1 {| route := POST_bookmarks; ctx := c1 |} w).1
  = c_json (Created b) 200 →
  caller e2 c2 = Some u → kv_failure e2 = None →
  ∃ bs,
    (serve e2 {| route := GET_bookmarks; ctx := c2 |}
       (serve e1 {| route := POST_bookmarks; ctx := c1 |} w).2).1
    = c_json (Bookmarks bs) 200
    ∧ b ∈ bs.
Proof.
  intros Hc1 Hresp Hc2 Hf.
  rewrite (serve_list e2 c2 _ u Hc2), Hf. simpl.
  eexists. split; [done|]. apply scan_elem.
  exists (bookmark_key u (randomUUID e1)). split; [|apply own_key_in_scope].
  served e1 {| route := POST_bookmarks; ctx := c1 |} w; simplify_eq.
  simpl. apply lookup_insert_eq.
Qed.

Lemma created_bookmark_is_listed_witness :
  ∃ bs,
    (serve (at_time "1c2d3e4f-5a6b-4c7d-8e9f-0a1b2c3d4e5f")
       (list_request "alice-token")
       (serve (at_time "9a3e6b70-2f4d-4c1b-b8a5-6d7e8f901234")
          (create_request "alice-token" x_com) empty_world).2).1
    = c_json (Bookmarks bs) 200
    ∧ x_com_bookmark ∈ bs.
Proof.
  apply (created_bookmark_is_listed
           (at_time "9a3e6b70-2f4d-4c1b-b8a5-6d7e8f901234")
           (at_time "1c2d3e4f-5a6b-4c7d-8e9f-0a1b2c3d4e5f")
           (ctx (create_request "alice-token" x_com))
           (ctx (list_request "alice-token"))
           empty_world alice x_com_bookmark); reflexivity.
Defined.

(** X5.  In a world the edge function has brought about, once a delete
    request of caller [u] for id [i] has been answered with success, the
    caller's next list request returns no bookmark with [userId = u] and
    [id = i]. *)
Theorem deleted_bookmark_is_not_listed (e1 e2 : Env) (c1 c2 : Context)
    (w : World) (u : string) :
  reachable w →
  caller e1 c1 = Some u →
  (serve e1 {| route := DELETE_bookmark; ctx := c1 |} w).1
  = c_json (Success true) 200 →
  caller e2 c2 = Some u → kv_failure e2 = None →
  ∃ bs,
    (serve e2 {| route := GET_bookmarks; ctx := c2 |}
       (serve e1 {| route := DELETE_bookmark; ctx := c1 |} w).2).1
    = c_json (Bookmarks bs) 200
    ∧ ∀ b, b ∈ bs → ¬ (userId b = u ∧ id b = param_id c1).
Proof.
  intros Hw Hc1 Hresp Hc2 Hf.
  pose proof (reachable_agree _ (reachable_serve e1
    {| route := DELETE_bookmark; ctx := c1 |} w Hw)) as Hk.
  rewrite (serve_list e2 c2 _ u Hc2), Hf. simpl.
  eexists. split; [done|].
  intros b (k & Hkb & _)%scan_elem [Hu Hi].
  pose proof (Hk _ _ Hkb) as ->. rewrite Hu, Hi in Hkb.
  rewrite (serve_delete e1 c1 w u Hc1) in Hkb, Hresp.
  destruct (kv_failure e1); [done|]. simpl in Hkb.
  by rewrite lookup_delete_eq in Hkb.
Qed.

Lemma deleted_bookmark_is_not_listed_witness :
  ∃ bs,
    (serve (at_time "aaaaaaaa-0000-4000-8000-000000000005")
       (list_request "alice-token")
       (serve (at_time "aaaaaaaa-0000-4000-8000-000000000004")
          (delete_request "alice-token" "3b9d1f6e-7c2a-4e5b-9f80-1a2b3c4d5e6f")
          (serve (at_time "3b9d1f6e-7c2a-4e5b-9f80-1a2b3c4d5e6f")
             (create_request "alice-token" x_com) empty_world).2).2).1
    = c_json (Bookmarks bs) 200
    ∧ ∀ b, b ∈ bs →
        ¬ (userId b = alice ∧ id b = "3b9d1f6e-7c2a-4e5b-9f80-1a2b3c4d5e6f").
Proof.
  apply (deleted_bookmark_is_not_listed
           (at_time "aaaaaaaa-0000-4000-8000-000000000004")
           (at_time "aaaaaaaa-0000-4000-8000-000000000005")
           (ctx (delete_request "alice-token"
                   "3b9d1f6e-7c2a-4e5b-9f80-1a2b3c4d5e6f"))
           (ctx (list_request "alice-token")) _ alice);
    [apply reachable_serve, reachable_empty|reflexivity..].
Defined.

(** X6.  A create request followed by a delete request of the same caller
    for the id the create was answered with leaves the table as it was
    before the two, provided nothing was stored under that id before. *)
Theorem create_then_delete_restores (e1 e2 : Env) (c1 c2 : Context)
    (w : World) (u : string) (b : Bookmark) :
  caller e1 c1 = Some u →
  (serve e1 {| route := POST_bookmarks; ctx := c1 |} w).1
  = c_json (Created b) 200 →
  kv w !! bookmark_key u (id b) = None →
  caller e2 c2 = Some u → param_id c2 = id b → kv_failure e2 = None →
  kv (serve e2 {| route := DELETE_bookmark; ctx := c2 |}
        (serve e1 {| route := POST_bookmarks; ctx := c1 |} w).2).2
  = kv w.
Proof.
  intros Hc1 Hresp Hfresh Hc2 Hid Hf.
  rewrite (serve_delete e2 c2 _ u Hc2), Hf, Hid. simpl.
  served e1 {| route := POST_bookmarks; ctx := c1 |} w; simplify_eq.
  simpl in *. by apply delete_insert_id.
Qed.

Lemma create_then_delete_restores_witness :
  kv (serve (at_time "aaaaaaaa-0000-4000-8000-000000000004")
        (delete_request "alice-token" "9a3e6b70-2f4d-4c1b-b8a5-6d7e8f901234")
        (serve (at_time "9a3e6b70-2f4d-4c1b-b8a5-6d7e8f901234")
           (create_request "alice-token" x_com) empty_world).2).2
  = kv empty_world.
Proof.
  apply (create_then_delete_restores
           (at_time "9a3e6b70-2f4d-4c1b-b8a5-6d7e8f901234")
           (at_time "aaaaaaaa-0000-4000-8000-000000000004")
           (ctx (create_request "alice-token" x_com))
           (ctx (delete_request "alice-token"
                   "9a3e6b70-2f4d-4c1b-b8a5-6d7e8f901234"))
           empty_world alice x_com_bookmark); reflexivity.
Defined.

Lemma reachable_run steps : ∀ w, reachable w → reachable (run steps w).2.
Proof.
  induction steps as [|[e q] rest IH]; intros w Hw; [done|].
  rewrite run_cons. simpl. by apply IH, reachable_serve.
Qed.

(** X7.  No record in a world the edge function has brought about has an
    empty [userId], or the empty string for its [url] or its [title]: an
    empty identifier fails the authorization check and an empty string
    fails the validation. *)
Theorem stored_records_are_valid (w : World) (k : string) (b : Bookmark) :
  reachable w →
  kv w !! k = Some b →
  userId b ≠ EmptyString
  ∧ url b ≠ JStr EmptyString
  ∧ title b ≠ JStr EmptyString.
Proof.
  intros Hw. revert k b.
  induction Hw as [|e q w _ IH]; intros k b.
  { simpl. by rewrite lookup_empty. }
  served e q w; cbn [kv record]; try apply IH.
  - rewrite lookup_insert. case_decide; [|apply IH].
    intros [= <-]. simpl. split_and!.
    + by eapply caller_nonempty.
    + intros ->.
      match goal with
      | H : truthy (Some (JStr EmptyString)) = true |- _ => by vm_compute in H
      end.
    + intros ->.
      match goal with
      | H : truthy (Some (JStr EmptyString)) = true |- _ => by vm_compute in H
      end.
  - rewrite lookup_delete. case_decide; [done|apply IH].
Qed.

Lemma stored_records_are_valid_witness :
  userId rocq_bookmark ≠ EmptyString
  ∧ url rocq_bookmark ≠ JStr EmptyString
  ∧ title rocq_bookmark ≠ JStr EmptyString.
Proof.
  apply (stored_records_are_valid (run busy_day empty_world).2
           (bookmark_key alice "3b9d1f6e-7c2a-4e5b-9f80-1a2b3c4d5e6f")).
  - apply reachable_run, reachable_empty.
  - vm_compute. reflexivity.
Defined.

(** X8.  Let [B]'s identifier contain no [':'].  A request of any route
    that is not [B]'s own (it has no verified caller, or its caller is
    another user whose identifier contains no [':']) leaves the answer to
    [B]'s list request as it was. *)
Theorem requests_spare_other_users (B : string) (e eB : Env) (q : Request)
    (cB : Context) (w : World) :
  colon_free B = true →
  caller eB cB = Some B →
  (caller e (ctx q) = None
   ∨ ∃ A, caller e (ctx q) = Some A ∧ A ≠ B ∧ colon_free A = true) →
  (serve eB {| route := GET_bookmarks; ctx := cB |} (serve e q w).2).1
  = (serve eB {| route := GET_bookmarks; ctx := cB |} w).1.
Proof.
  intros HB HcB Hq. rewrite !(serve_list eB cB _ B HcB).
  assert (∀ A i, caller e (ctx q) = Some A →
            ¬ String.prefix (user_prefix B) (bookmark_key A i)) as Hout.
  { intros A i HA Hp%Is_true_true.
    destruct Hq as [Hq|(A' & Hq & Hne & HA')]; [congruence|].
    simplify_eq. apply foreign_key_out_of_scope in Hp; auto. }
  destruct (kv_failure eB); [done|]. simpl. do 2 f_equal.
  served e q w; cbn [kv record]; try done; unfold scan.
  - rewrite map_filter_insert_not; [done|]. intros y. by apply Hout.
  - rewrite map_filter_delete_not; [done|]. intros y _. by apply Hout.
Qed.

Lemma requests_spare_other_users_witness :
  (serve (at_time "aaaaaaaa-0000-4000-8000-000000000005")
     (list_request "bob-token")
     (serve (at_time "aaaaaaaa-0000-4000-8000-000000000004")
        (create_request "alice-token" x_com)
        (run busy_day empty_world).2).2).1
  = (serve (at_time "aaaaaaaa-0000-4000-8000-000000000005")
       (list_request "bob-token") (run busy_day empty_world).2).1.
Proof.
  apply (requests_spare_other_users bob
           (at_time "aaaaaaaa-0000-4000-8000-000000000004")
           (at_time "aaaaaaaa-0000-4000-8000-000000000005")
           (create_request "alice-token" x_com)
           (ctx (list_request "bob-token"))).
  - reflexivity.
  - reflexivity.
  - right. exists alice. split; [reflexivity|]. split; [discriminate|reflexivity].
Defined.

(** ** The Authorization header *)

Lemma split_space_free (s : string) :
  space_free s = true → split " " s = [s].
Proof.
  induction s as [|a s IH]; [done|]. simpl.
  intros [Ha Hs]%andb_true_iff. apply negb_true_iff in Ha.
  by rewrite Ha, (IH Hs).
Qed.

Lemma split_at_first_space (s t : string) :
  space_free s = true → split " " (s +:+ " " +:+ t) = s :: split " " t.
Proof.
  induction s as [|a s IH]; [done|].
  intros [Ha Hs]%andb_true_iff. apply negb_true_iff in Ha.
  rewrite append_cons. simpl. by rewrite Ha, (IH Hs).
Qed.

(** X9.  The token the handlers verify is the second space-separated word
    of the Authorization header, and the first word is not looked at: for a
    header made of any scheme word, one space and a token, neither holding
    a space, the handlers read back exactly that token.  The client's
    ['Bearer ' + accessToken] is such a header. *)
Theorem token_round_trip (scheme token : string) (c : Context) :
  space_free scheme = true → space_free token = true →
  authorization c = Some (scheme +:+ " " +:+ token) →
  accessToken c = Some token.
Proof.
  intros Hs Ht Hc. unfold accessToken. rewrite Hc. simpl.
  by rewrite (split_at_first_space _ _ Hs), (split_space_free _ Ht).
Qed.

Lemma token_round_trip_witness :
  accessToken (ctx (list_request "eyJhbGciOiJIUzI1NiJ9.e30.abc"))
  = Some "eyJhbGciOiJIUzI1NiJ9.e30.abc".
Proof.
  apply (token_round_trip "Bearer"); reflexivity.
Defined.

(** * Further properties of the client *)

Lemma deleted_event_step (uid i : string) (ev : BookmarkEvent.t)
    (prev : list Bookmark) :
  BookmarkEvent.userId ev = uid →
  BookmarkEvent.type ev = "deleted" →
  BookmarkEvent.bookmarkId ev = Some i → i ≠ EmptyString →
  on_bookmark_change uid ev prev
  = List.filter (λ b, negb (String.eqb (id b) i)) prev.
Proof.
  intros Hu Ht Hi Hne%String.eqb_neq. unfold on_bookmark_change.
  rewrite Hu, String.eqb_refl, Ht, Hi, Hne. simpl.
  by destruct (BookmarkEvent.bookmark ev).
Qed.

Lemma elem_of_without (i : string) (b : Bookmark) (l : list Bookmark) :
  b ∈ List.filter (λ b, negb (String.eqb (id b) i)) l ↔ b ∈ l ∧ id b ≠ i.
Proof.
  rewrite !list_elem_of_In, filter_In, negb_true_iff, String.eqb_neq. done.
Qed.

Lemma without_absent (i : string) (l : list Bookmark) :
  i ∉ id <$> l → List.filter (λ b, negb (String.eqb (id b) i)) l = l.
Proof.
  induction l as [|b l IH]; [done|]. simpl.
  intros Hnot. apply not_elem_of_cons in Hnot as [Hne Hnot].
  assert (String.eqb (id b) i = false) as -> by by apply String.eqb_neq.
  simpl. by rewrite IH.
Qed.

Lemma without_ids (i : string) (l : list Bookmark) :
  i ∉ id <$> List.filter (λ b, negb (String.eqb (id b) i)) l.
Proof.
  intros Hin. apply list_elem_of_fmap in Hin as (b & Hi & Hb).
  apply elem_of_without in Hb as [_ Hne]. done.
Qed.

Lemma without_NoDup (i : string) (l : list Bookmark) :
  NoDup (id <$> l) →
  NoDup (id <$> List.filter (λ b, negb (String.eqb (id b) i)) l).
Proof.
  induction l as [|b l IH]; [done|]. simpl.
  intros [Hnot Hnd]%NoDup_cons.
  destruct (negb _); [|by apply IH]. simpl.
  apply NoDup_cons. split; [|by apply IH].
  intros Hin. apply list_elem_of_fmap in Hin as (b' & Heq & Hb').
  apply elem_of_without in Hb' as [Hin _].
  apply Hnot, list_elem_of_fmap. eauto.
Qed.

(** X10.  A Deleted event of the session's user with a non-empty id: no
    bookmark of the resulting list has that id; every other bookmark is
    kept; a list that does not hold the id is left as it is; and applying
    the event a second time changes nothing more. *)
Theorem deleted_event_removes_id (uid i : string) (ev : BookmarkEvent.t)
    (prev : list Bookmark) :
  BookmarkEvent.userId ev = uid →
  BookmarkEvent.type ev = "deleted" →
  BookmarkEvent.bookmarkId ev = Some i → i ≠ EmptyString →
  (i ∉ id <$> on_bookmark_change uid ev prev)
  ∧ (∀ b, b ∈ on_bookmark_change uid ev prev ↔ b ∈ prev ∧ id b ≠ i)
  ∧ (i ∉ id <$> prev → on_bookmark_change uid ev prev = prev)
  ∧ on_bookmark_change uid ev (on_bookmark_change uid ev prev)
    = on_bookmark_change uid ev prev.
Proof.
  intros Hu Ht Hi Hne.
  rewrite !(deleted_event_step uid i ev) by done.
  split_and!.
  - apply without_ids.
  - intros b. apply elem_of_without.
  - apply without_absent.
  - apply without_absent, without_ids.
Qed.

Lemma deleted_event_removes_id_witness :
  on_bookmark_change alice
    {| BookmarkEvent.type := "deleted";
       BookmarkEvent.bookmark := None;
       BookmarkEvent.bookmarkId := Some (id x_com_bookmark);
       BookmarkEvent.userId := alice |}
    [rocq_bookmark; x_com_bookmark]
  = [rocq_bookmark].
Proof.
  pose proof
    (deleted_event_removes_id alice (id x_com_bookmark)
       {| BookmarkEvent.type := "deleted";
          BookmarkEvent.bookmark := None;
          BookmarkEvent.bookmarkId := Some (id x_com_bookmark);
          BookmarkEvent.userId := alice |}
       [rocq_bookmark; x_com_bookmark] eq_refl eq_refl eq_refl)
    as (_ & _ & _ & _); [discriminate|].
  reflexivity.
Defined.

(** X11.  Whatever event arrives, a list in which no two bookmarks share an
    id is turned into a list in which no two bookmarks share an id. *)
Theorem events_keep_ids_distinct (uid : string) (ev : BookmarkEvent.t)
    (prev : list Bookmark) :
  NoDup (id <$> prev) → NoDup (id <$> on_bookmark_change uid ev prev).
Proof.
  intros Hnd. unfold on_bookmark_change.
  destruct (negb _); [done|].
  destruct (String.eqb (BookmarkEvent.type ev) "added"),
    (BookmarkEvent.bookmark ev) as [b|];
    try (destruct (String.eqb (BookmarkEvent.type ev) "deleted"),
           (BookmarkEvent.bookmarkId ev) as [i|]; try done;
         destruct (String.eqb i EmptyString); [done|by apply without_NoDup]).
  destruct (some_id (id b) prev) eqn:Hsome; [done|].
  simpl. apply NoDup_cons. split; [|done].
  intros Hin%some_id_true. congruence.
Qed.

Lemma events_keep_ids_distinct_witness :
  NoDup (id <$> on_bookmark_change alice
           {| BookmarkEvent.type := "added";
              BookmarkEvent.bookmark := Some x_com_bookmark;
              BookmarkEvent.bookmarkId := None;
              BookmarkEvent.userId := alice |}
           [x_com_bookmark; rocq_bookmark]).
Proof.
  apply events_keep_ids_distinct.
  apply (bool_decide_unpack _). vm_compute. exact I.
Defined.

(** X12.  An Added event for a bookmark whose id is new to the list,
    followed by a Deleted event for that id, gives back the list as it
    was. *)
Theorem added_then_deleted_cancel (uid : string) (b : Bookmark)
    (add del : BookmarkEvent.t) (prev : list Bookmark) :
  BookmarkEvent.userId add = uid → BookmarkEvent.type add = "added" →
  BookmarkEvent.bookmark add = Some b →
  BookmarkEvent.userId del = uid → BookmarkEvent.type del = "deleted" →
  BookmarkEvent.bookmarkId del = Some (id b) →
  id b ≠ EmptyString → id b ∉ id <$> prev →
  on_bookmark_change uid del (on_bookmark_change uid add prev) = prev.
Proof.
  intros Hua Hta Hb Hud Htd Hi Hne Hnew.
  rewrite (added_event_step uid add b) by done.
  assert (some_id (id b) prev = false) as ->.
  { destruct (some_id (id b) prev) eqn:Hs; [|done].
    by apply some_id_true in Hs. }
  rewrite (deleted_event_step uid (id b) del) by done.
  simpl. rewrite String.eqb_refl. simpl. by apply without_absent.
Qed.

Lemma added_then_deleted_cancel_witness :
  on_bookmark_change alice
    {| BookmarkEvent.type := "deleted";
       BookmarkEvent.bookmark := None;
       BookmarkEvent.bookmarkId := Some (id x_com_bookmark);
       BookmarkEvent.userId := alice |}
    (on_bookmark_change alice
       {| BookmarkEvent.type := "added";
          BookmarkEvent.bookmark := Some x_com_bookmark;
          BookmarkEvent.bookmarkId := None;
          BookmarkEvent.userId := alice |}
       [rocq_bookmark])
  = [rocq_bookmark].
Proof.
  apply (added_then_deleted_cancel alice x_com_bookmark);
    try reflexivity; [discriminate|].
  apply (bool_decide_unpack _). vm_compute. exact I.
Defined.

(** ** Local changes and their broadcast *)

(** X13.  When the create request is answered with a bookmark [b], a
    signed-in session with an open channel puts [b] in front of its list and
    sends an Added event that (i) changes nothing when it comes back to the
    list just set, and (ii) turns the list of another session of the same
    user, if it held the same bookmarks and not yet [b]'s id, into the same
    list. *)
Theorem add_broadcast_converges (u : User) (a : ascii) (token : string)
    (bookmarks : list Bookmark) (fetch : Request → App.Fetched)
    (url title : string) (response : Response) (b : Bookmark) :
  fetch (create_request (String a token) (add_body url title))
  = App.Answered response →
  App.ok response = true → payload response = Created b →
  ∃ ev,
    App.handleAddBookmark (Some u) (Some (String a token)) true bookmarks
      fetch url title
    = App.mkEffects (Some (Some <$> b :: bookmarks)) (Some ev)
        (Some (App.toast_success "Bookmark added successfully"))
    ∧ on_bookmark_change (user_id u) ev (b :: bookmarks) = b :: bookmarks
    ∧ (id b ∉ id <$> bookmarks →
       on_bookmark_change (user_id u) ev bookmarks = b :: bookmarks).
Proof.
  intros Hfetch Hok Hpay. unfold App.handleAddBookmark.
  rewrite Hfetch, Hok, Hpay. simpl. eexists. split; [done|].
  rewrite !(added_event_step (user_id u) _ b) by done. split.
  - assert (some_id (id b) (b :: bookmarks) = true) as ->; [|done].
    apply some_id_true. simpl. by left.
  - intros Hnew. destruct (some_id (id b) bookmarks) eqn:Hs; [|done].
    by apply some_id_true in Hs.
Qed.

Lemma add_broadcast_converges_witness :
  ∃ ev,
    App.handleAddBookmark (Some alice_user) (Some "alice-token") true
      [rocq_bookmark]
      (reaches (at_time "9a3e6b70-2f4d-4c1b-b8a5-6d7e8f901234") empty_world)
      "https://x.com" "X"
    = App.mkEffects (Some (Some <$> [x_com_bookmark; rocq_bookmark])) (Some ev)
        (Some (App.toast_success "Bookmark added successfully"))
    ∧ on_bookmark_change alice ev [x_com_bookmark; rocq_bookmark]
      = [x_com_bookmark; rocq_bookmark]
    ∧ (id x_com_bookmark ∉ id <$> [rocq_bookmark] →
       on_bookmark_change alice ev [rocq_bookmark]
       = [x_com_bookmark; rocq_bookmark]).
Proof.
  apply (add_broadcast_converges alice_user "a" "lice-token" [rocq_bookmark]
           (reaches (at_time "9a3e6b70-2f4d-4c1b-b8a5-6d7e8f901234") empty_world)
           "https://x.com" "X"
           (c_json (Created x_com_bookmark) 200) x_com_bookmark);
    reflexivity.
Defined.

(** X14.  When the delete request for a non-empty id is answered with a 2xx
    status, a signed-in session with an open channel drops the bookmarks
    with that id from its list and sends a Deleted event that another
    session of the same user holding the same list applies to the same
    effect, and that changes nothing when it comes back to the list just
    set. *)
Theorem delete_broadcast_converges (u : User) (a : ascii) (token : string)
    (bookmarks : list Bookmark) (fetch : Request → App.Fetched)
    (bid : string) (response : Response) :
  fetch (delete_request (String a token) bid) = App.Answered response →
  App.ok response = true → bid ≠ EmptyString →
  ∃ next ev,
    App.handleDeleteBookmark (Some u) (Some (String a token)) true bookmarks
      fetch bid
    = App.mkEffects (Some next) (Some ev)
        (Some (App.toast_success "Bookmark deleted"))
    ∧ (bid ∉ id <$> next)
    ∧ on_bookmark_change (user_id u) ev bookmarks = next
    ∧ on_bookmark_change (user_id u) ev next = next.
Proof.
  intros Hfetch Hok Hne. unfold App.handleDeleteBookmark.
  rewrite Hfetch, Hok. simpl. eexists _, _. split; [done|].
  rewrite !(deleted_event_step (user_id u) bid) by done.
  split_and!; [apply without_ids|done|].
  apply without_absent, without_ids.
Qed.

Lemma delete_broadcast_converges_witness :
  ∃ next ev,
    App.handleDeleteBookmark (Some alice_user) (Some "alice-token") true
      [x_com_bookmark; rocq_bookmark]
      (reaches (at_time "aaaaaaaa-0000-4000-8000-000000000004")
         (run busy_day empty_world).2)
      (id rocq_bookmark)
    = App.mkEffects (Some next) (Some ev)
        (Some (App.toast_success "Bookmark deleted"))
    ∧ (id rocq_bookmark ∉ id <$> next)
    ∧ on_bookmark_change alice ev [x_com_bookmark; rocq_bookmark] = next
    ∧ on_bookmark_change alice ev next = next.
Proof.
  apply (delete_broadcast_converges alice_user "a" "lice-token"
           [x_com_bookmark; rocq_bookmark]
           (reaches (at_time "aaaaaaaa-0000-4000-8000-000000000004")
              (run busy_day empty_world).2)
           (id rocq_bookmark) (c_json (Success true) 200));
    [vm_compute; reflexivity|reflexivity|discriminate].
Defined.

(** ** Dialog, client and edge function together *)

Lemma answer_ok (q : Request) (r : Response) :
  Answer q r → App.ok r = true ↔ status r = 200.
Proof. by destruct 1. Qed.

Lemma bearer_nonempty e token body :
  is_Some (caller e (ctx (create_request token body))) → token ≠ EmptyString.
Proof. intros [u Hu] ->. by vm_compute in Hu. Qed.

(** X15.  What the dialog submits passes the validation of the edge
    function: the dialog calls [onAdd] only with a non-empty url and a
    non-empty title, and the create request built from them is never
    answered with 400, whoever sends it and whatever the table holds. *)
Theorem dialog_submission_is_never_400 (url title url' title' : string)
    (e : Env) (token : string) (w : World) :
  Dialog.handleSubmit url title = Some (url', title') →
  url' ≠ EmptyString ∧ title' ≠ EmptyString
  ∧ status (serve e (create_request token (add_body url' title')) w).1 ≠ 400.
Proof.
  unfold Dialog.handleSubmit.
  destruct (String.eqb_spec url EmptyString) as [|Hu]; [done|].
  destruct (String.eqb_spec title EmptyString) as [|Ht]; [done|].
  intros [= <- <-]. split_and!; [done..|].
  apply String.eqb_neq in Hu, Ht.
  served e (create_request token (add_body url title)) w; try done.
  intros _. simpl in *. simplify_eq.
  unfold truthy, add_body in *. simpl in *.
  rewrite Hu, Ht in *. by destruct_or!.
Qed.

Lemma dialog_submission_is_never_400_witness :
  "https://x.com" ≠ EmptyString ∧ "X" ≠ EmptyString
  ∧ status (serve storage_down
              (create_request "stale-token" (add_body "https://x.com" "X"))
              empty_world).1 ≠ 400.
Proof.
  apply (dialog_submission_is_never_400 "https://x.com" "X").
  reflexivity.
Defined.

(** X16.  A signed-in session whose token the identity provider verifies as
    the session's own user adds a bookmark with a non-empty url and title
    while the table is available: the bookmark put in front of the local
    list is the record now stored in the table under the user's key, with
    the url and title typed, and a success toast is shown. *)
Theorem added_bookmark_is_the_stored_record (u : User) (token : string)
    (channel : bool) (bookmarks : list Bookmark) (link label : string)
    (e : Env) (w : World) :
  caller e (ctx (create_request token (add_body link label)))
  = Some (user_id u) →
  link ≠ EmptyString → label ≠ EmptyString →
  kv_failure e = None →
  ∃ b,
    App.setBookmarks
      (App.handleAddBookmark (Some u) (Some token) channel bookmarks
         (reaches e w) link label)
    = Some (Some <$> b :: bookmarks)
    ∧ App.toast
        (App.handleAddBookmark (Some u) (Some token) channel bookmarks
           (reaches e w) link label)
      = Some (App.toast_success "Bookmark added successfully")
    ∧ kv (serve e (create_request token (add_body link label)) w).2
        !! bookmark_key (user_id u) (id b) = Some b
    ∧ userId b = user_id u ∧ url b = JStr link ∧ title b = JStr label.
Proof.
  intros Hc Hu Ht Hf.
  assert (token ≠ EmptyString) as Htok by (eapply bearer_nonempty; eauto).
  apply String.eqb_neq in Hu, Ht.
  unfold App.handleAddBookmark, reaches.
  destruct token as [|a token]; [done|].
  change (create_request (String a token) (add_body link label))
    with {| route := POST_bookmarks;
            ctx := ctx (create_request (String a token) (add_body link label)) |}.
  rewrite (serve_create e _ w (user_id u) (add_body link label)
             (JStr link) (JStr label));
    [|done|done|done|by unfold truthy; rewrite Hu|done
     |by unfold truthy; rewrite Ht].
  rewrite Hf. simpl. eexists. split_and!; try done.
  apply lookup_insert_eq.
Qed.

Lemma added_bookmark_is_the_stored_record_witness :
  ∃ b,
    App.setBookmarks
      (App.handleAddBookmark (Some alice_user) (Some "alice-token") false
         [rocq_bookmark]
         (reaches (at_time "9a3e6b70-2f4d-4c1b-b8a5-6d7e8f901234") empty_world)
         "https://x.com" "X")
    = Some (Some <$> [b; rocq_bookmark])
    ∧ userId b = alice.
Proof.
  destruct (added_bookmark_is_the_stored_record alice_user "alice-token" false
              [rocq_bookmark] "https://x.com" "X"
              (at_time "9a3e6b70-2f4d-4c1b-b8a5-6d7e8f901234") empty_world)
    as (b & Hset & _ & _ & Hown & _);
    [reflexivity|discriminate|discriminate|reflexivity|].
  exists b. split; [exact Hset|exact Hown].
Defined.

(** X17.  When the edge function answers a list or create request with
    anything but status 200 (a token it does not verify, a failing table),
    the client neither sets its list nor sends an event, and shows an error
    toast. *)
Theorem refused_request_leaves_client_state (user : option User)
    (a : ascii) (token : string) (channel : bool) (bookmarks : list Bookmark)
    (url title : string) (e : Env) (w : World) :
  (status (serve e (list_request (String a token)) w).1 ≠ 200 →
   App.fetchBookmarks (Some (String a token)) (reaches e w)
   = App.mkEffects None None (Some (App.toast_error "Failed to load bookmarks")))
  ∧ (status (serve e (create_request (String a token) (add_body url title)) w).1
     ≠ 200 →
     App.handleAddBookmark user (Some (String a token)) channel bookmarks
       (reaches e w) url title
     = App.mkEffects None None (Some (App.toast_error "Failed to add bookmark"))).
Proof.
  split; intros Hst;
    unfold App.fetchBookmarks, App.handleAddBookmark, reaches;
    match goal with
    | |- context [serve e ?q w] =>
        pose proof (answer_ok q _ (serve_answer e q w)) as Hok;
        destruct (App.ok (serve e q w).1); [by destruct Hst; apply Hok|done]
    end.
Qed.

Lemma refused_request_leaves_client_state_witness :
  App.fetchBookmarks (Some "expired-token")
    (reaches (at_time "9a3e6b70-2f4d-4c1b-b8a5-6d7e8f901234")
       (run busy_day empty_world).2)
  = App.mkEffects None None (Some (App.toast_error "Failed to load bookmarks")).
Proof.
  apply (refused_request_leaves_client_state None "e" "xpired-token" false []
           "https://x.com" "X").
  vm_compute. discriminate.
Defined.
